(** * FractalJulia: sequential and fragment-parallel Julia-set generation

    A shallow embedding of [proyecto.py]: the escape-time kernel, the grid
    loops of [generar_fractal] and [generar_fractal_secuencial], the
    four-fragment planner and the callback/condition protocol of
    [generar_fractal_paralelo], and the metrics of
    [generar_fractal_y_graficar].

    Numeric conventions.
    - Python [int] is [Z]; [//] is [Z.div] (both round towards minus
      infinity).
    - Python [float] values that are computed from the grid (coordinates,
      the constant [c]) are binary64 numbers, [PrimFloat.float].
    - Readings of [time.time()] and the durations derived from them are
      exact rationals [Q]: the clock is an input of the model, and the
      model only lets it move forward. *)

From Stdlib Require Import ZArith QArith Lia Lqa Bool.
From Stdlib Require Import Floats.PrimFloat Uint63.
From Equations Require Import Equations.
From stdpp Require Import base option list list_numbers.

Open Scope Z_scope.

(** ** Exceptions raised by the modelled code *)

Inductive excepcion :=
  | ValueError          (* np.zeros with a negative dimension *)
  | AttributeError      (* reading an attribute that was never assigned *)
  | ZeroDivisionError   (* float division by zero *)
  | OverflowError.      (* abs(z) or z ** 2 leaves the binary64 range *)

(** ** Complex numbers *)

(** A Python [complex] is a pair of binary64 numbers. *)
Record complejo := Complejo { real : float; imag : float }.

(** [z ** 2] and [abs(z)] are library operations of the Python runtime
    (repeated multiplication and [hypot]); the development is parametric
    in them.  Each either raises [OverflowError], when its result leaves
    the binary64 range, or returns a value: [potencia2_desborda] and
    [abs_desborda] say where the runtime raises, [potencia2] and [abs_c]
    are the values it returns elsewhere. *)
Class AritmeticaCompleja := {
  potencia2 : complejo -> complejo;
  abs_c : complejo -> float;
  potencia2_desborda : complejo -> bool;
  abs_desborda : complejo -> bool
}.

Section Runtime.
Context {ar : AritmeticaCompleja}.

(** [abs(z)] as the runtime evaluates it. *)
Definition abs_python (z : complejo) : excepcion + float :=
  if abs_desborda z then inl OverflowError else inr (abs_c z).

(** [z ** 2] as the runtime evaluates it. *)
Definition potencia2_python (z : complejo) : excepcion + complejo :=
  if potencia2_desborda z then inl OverflowError else inr (potencia2 z).

End Runtime.

(** [a + b] on [complex]: componentwise. *)
Definition suma_c (a b : complejo) : complejo :=
  Complejo (real a + real b)%float (imag a + imag b)%float.

Definition producto_c (a b : complejo) : complejo :=
  Complejo (real a * real b - imag a * imag b)%float
           (real a * imag b + imag a * real b)%float.

(** [hypot(re, im)] is infinite: the square root is taken on operands
    scaled by [2^-600], where the squares of large operands stay in
    range, and scaled back. *)
Definition hypot_infinito (re im : float) : bool :=
  let e := 0x1p-600%float in
  is_infinity
    (PrimFloat.sqrt ((re * e) * (re * e) + (im * e) * (im * e)) * 0x1p+600)%float.

(** A reference instance, used to run the model on concrete grids:
    the square as [1 * (z * z)] (binary exponentiation with exponent 2)
    and the modulus as [sqrt (re^2 + im^2)].  [z ** 2] raises when a part
    of the result is infinite; [abs(z)] raises when the two parts of [z]
    are finite and their [hypot] is not. *)
Definition aritmetica_ref : AritmeticaCompleja :=
  let potencia2 := fun z => producto_c (Complejo 1 0) (producto_c z z) in
  {|
  potencia2 := potencia2;
  abs_c := fun z => PrimFloat.sqrt (real z * real z + imag z * imag z)%float;
  potencia2_desborda := fun z =>
    is_infinity (real (potencia2 z)) || is_infinity (imag (potencia2 z));
  abs_desborda := fun z =>
    is_finite (real z) && is_finite (imag z)
    && hypot_infinito (real z) (imag z)
|}.

(** [float(n)] for a Python [int] with [|n| < 2^63], as the indices and
    dimensions of a grid are; the conversion is exact below [2^53]. *)
Definition float_de_Z (n : Z) : float :=
  if n <? 0 then PrimFloat.opp (PrimFloat.of_uint63 (Uint63.of_Z (- n)))
  else PrimFloat.of_uint63 (Uint63.of_Z n).

(** ** Grids *)

(** A numpy 2-D array of integers, row-major. *)
Abbreviation matriz := (list (list Z)).

(** [np.zeros((filas, columnas), dtype=int)] for non-negative dimensions. *)
Definition zeros (filas columnas : Z) : matriz :=
  replicate (Z.to_nat filas) (replicate (Z.to_nat columnas) 0).

(** [m[y, x] = v] for [0 <= y < filas], [0 <= x < columnas] (the only way
    the source indexes; numpy raises IndexError beyond the shape, the
    model leaves the array unchanged there). *)
Definition asignar (y x : Z) (v : Z) (m : matriz) : matriz :=
  alter (fun fila => <[Z.to_nat x := v]> fila) (Z.to_nat y) m.

(** [m[inicio:fin, :] = bloque] for [0 <= inicio <= fin <= filas] and a
    block of [fin - inicio] rows: rows [inicio .. fin-1] are overwritten by
    the rows of the block, the shape of [m] is unchanged. *)
Definition asignar_filas (inicio fin : Z) (bloque m : matriz) : matriz :=
  imap (fun y fila =>
          if (inicio <=? Z.of_nat y) && (Z.of_nat y <? fin)
          then default fila (bloque !! (Z.to_nat (Z.of_nat y - inicio)))
          else fila) m.

(** A grid has shape [filas x columnas]. *)
Definition forma (filas columnas : Z) (m : matriz) : Prop :=
  length m = Z.to_nat filas /\
  Forall (fun fila => length fila = Z.to_nat columnas) m.

(** ** The object *)

(** The attributes of a [FractalJulia] instance that carry data.  An
    attribute that [__init__] does not create is [None] until a method
    assigns it.  ([executor], [bloqueo_salida] and [condicion] are part of
    the protocol of section "The parallel run".) *)
Record FractalJulia := {
  ancho : Z;
  alto : Z;
  max_iteraciones : Z;
  salida : matriz;
  tiempo_comunicacion_total : option Q;
  c_real : option float;
  c_imag : option float
}.

(** [FractalJulia(ancho, alto, max_iteraciones)].  The only failure is the
    one of [np.zeros((alto, ancho))] on a negative dimension. *)
Definition __init__ (ancho alto max_iteraciones : Z) : excepcion + FractalJulia :=
  if (alto <? 0) || (ancho <? 0) then inl ValueError
  else inr {| ancho := ancho; alto := alto;
              max_iteraciones := max_iteraciones;
              salida := zeros alto ancho;
              tiempo_comunicacion_total := Some 0%Q;
              c_real := None; c_imag := None |}.

(** The object [FractalJulia(ancho, alto, max_iteraciones)] when the
    constructor succeeds. *)
Definition recien_creado (ancho alto max_iteraciones : Z) (self : FractalJulia)
  : Prop :=
  __init__ ancho alto max_iteraciones = inr self.

Definition con_salida (m : matriz) (self : FractalJulia) : FractalJulia :=
  {| ancho := ancho self; alto := alto self;
     max_iteraciones := max_iteraciones self;
     salida := m;
     tiempo_comunicacion_total := tiempo_comunicacion_total self;
     c_real := c_real self; c_imag := c_imag self |}.

Definition con_tiempo (t : option Q) (self : FractalJulia) : FractalJulia :=
  {| ancho := ancho self; alto := alto self;
     max_iteraciones := max_iteraciones self;
     salida := salida self;
     tiempo_comunicacion_total := t;
     c_real := c_real self; c_imag := c_imag self |}.

(** [self.c_real = c_real; self.c_imag = c_imag] *)
Definition con_c (cr ci : float) (self : FractalJulia) : FractalJulia :=
  {| ancho := ancho self; alto := alto self;
     max_iteraciones := max_iteraciones self;
     salida := salida self;
     tiempo_comunicacion_total := tiempo_comunicacion_total self;
     c_real := Some cr; c_imag := Some ci |}.

(** ** The escape-time kernel *)

Definition inspeccionar {A} (a : A) : {b : A | a = b} := exist _ a eq_refl.

Section Nucleo.
Context {ar : AritmeticaCompleja}.

(** The [while] loop of [fractal_julia], from the loop state [(z, n)]:
    [while abs(z) <= 2 and n < max_iteraciones: z = z**2 + c; n += 1]. *)
Equations? mientras (max_iter : Z) (c z : complejo) (n : Z) : Z
  by wf (Z.to_nat (max_iter - n)) lt :=
  mientras max_iter c z n with
    inspeccionar ((abs_c z <=? 2)%float && (n <? max_iter)) := {
    | exist _ true _ => mientras max_iter c (suma_c (potencia2 z) c) (n + 1)
    | exist _ false _ => n }.
Proof.
  apply andb_prop in e as [_ e]. apply Z.ltb_lt in e. lia.
Qed.

(** [fractal_julia(self, c, z)]: [n = 0], the loop, [return n].  This is
    the count that the call returns when the runtime raises nothing;
    [fractal_julia_python] below is the call with its exceptions. *)
Definition fractal_julia (self : FractalJulia) (c z : complejo) : Z :=
  mientras (max_iteraciones self) c z 0.

(** One evaluation of the loop test [abs(z) <= 2 and n < max_iteraciones]
    and, when it holds, of [z**2 + c]: an exception, the end of the loop
    ([None]) or the next value of [z]. *)
Definition ronda (max_iter : Z) (c z : complejo) (n : Z)
  : excepcion + option complejo :=
  match abs_python z with
  | inl e => inl e
  | inr r =>
      if (r <=? 2)%float && (n <? max_iter) then
        match potencia2_python z with
        | inl e => inl e
        | inr w => inr (Some (suma_c w c))
        end
      else inr None
  end.

(** The [while] loop of [fractal_julia] as the runtime evaluates it. *)
Equations? mientras_python (max_iter : Z) (c z : complejo) (n : Z)
  : excepcion + Z by wf (Z.to_nat (max_iter - n)) lt :=
  mientras_python max_iter c z n with inspeccionar (ronda max_iter c z n) := {
    | exist _ (inl e) _ => inl e
    | exist _ (inr None) _ => inr n
    | exist _ (inr (Some z')) _ => mientras_python max_iter c z' (n + 1) }.
Proof.
  unfold ronda in e. destruct (abs_python z) as [|r]; [discriminate|].
  destruct (r <=? 2)%float; [|discriminate].
  destruct (n <? max_iter) eqn:Hn; [|discriminate].
  apply Z.ltb_lt in Hn. lia.
Qed.

(** [fractal_julia(self, c, z)] as the runtime evaluates it: the count,
    or the exception raised by [abs(z)] or [z**2]. *)
Definition fractal_julia_python (self : FractalJulia) (c z : complejo)
  : excepcion + Z :=
  mientras_python (max_iteraciones self) c z 0.

(** The value of [z] after [k] rounds of [z = z**2 + c]. *)
Fixpoint orbita (c z : complejo) (k : nat) : complejo :=
  match k with
  | O => z
  | S k' => orbita c (suma_c (potencia2 z) c) k'
  end.

End Nucleo.

(** ** Grid coordinates *)

(** [imag = y * (3 / self.alto) - 1.5].  The quotient of the two integers
    is rounded once, like the quotient of the two floats they convert
    to. *)
Definition imag_de_fila (self : FractalJulia) (y : Z) : float :=
  (float_de_Z y * (float_de_Z 3 / float_de_Z (alto self)) - 1.5)%float.

(** [real = x * (3 / self.ancho) - 2] *)
Definition real_de_columna (self : FractalJulia) (x : Z) : float :=
  (float_de_Z x * (float_de_Z 3 / float_de_Z (ancho self)) - 2)%float.

(** [z = complex(real, imag)] for the cell [(x, y)]. *)
Definition coordenada (self : FractalJulia) (x y : Z) : complejo :=
  Complejo (real_de_columna self x) (imag_de_fila self y).

(** ** Fragment computation and the sequential run *)

Section Calculo.
Context {ar : AritmeticaCompleja}.

(** [generar_fractal(self, fragmento)]: the two nested [for] loops fill a
    zero block of [fin_y - inicio_y] rows cell by cell.  [None] is the
    AttributeError of reading [self.c_real] or [self.c_imag] before any
    run has assigned them.  The fragments of the planner have
    [0 <= inicio_y <= fin_y <= self.alto]: the block has no negative
    dimension, and the loop bodies, with their divisions by [self.alto]
    and [self.ancho], run only on a grid that has a row and a column. *)
Definition generar_fractal (self : FractalJulia) (fragmento : Z * Z)
  : option matriz :=
  cr ← c_real self;
  ci ← c_imag self;
  let c := Complejo cr ci in
  let '(inicio_y, fin_y) := fragmento in
  let fragmento_salida := zeros (fin_y - inicio_y) (ancho self) in
  Some (foldl (fun bloque y =>
                 foldl (fun bloque x =>
                          let z := coordenada self x y in
                          asignar (y - inicio_y) x (fractal_julia self c z) bloque)
                       bloque (seqZ 0 (ancho self)))
              fragmento_salida (seqZ inicio_y (fin_y - inicio_y))).

(** [generar_fractal_secuencial(self, c_real, c_imag)]: the object after
    the call ([self.salida] is overwritten in place).  The elapsed time
    it returns is a difference of two clock readings and is supplied by
    the caller of the model. *)
Definition generar_fractal_secuencial (self : FractalJulia) (cr ci : float)
  : FractalJulia :=
  let self := con_c cr ci self in
  con_salida
    (foldl (fun m y =>
              foldl (fun m x =>
                       let z := coordenada self x y in
                       asignar y x (fractal_julia self (Complejo cr ci) z) m)
                    m (seqZ 0 (ancho self)))
           (salida self) (seqZ 0 (alto self)))
    self.

End Calculo.

(** ** The fragment planner *)

(** Lines 47-49 of [generar_fractal_paralelo]: four bands of
    [self.alto // 4] rows, then [fragmentos[-1]] is replaced so that it
    ends at [self.alto]. *)
Definition fragmentos (self : FractalJulia) : list (Z * Z) :=
  let tamano_fragmentos := alto self / 4 in
  let fragmentos :=
    (fun i => (i * tamano_fragmentos, (i + 1) * tamano_fragmentos)) <$> seqZ 0 4 in
  match last fragmentos with
  | Some ultimo => <[pred (length fragmentos) := (ultimo.1, alto self)]> fragmentos
  | None => fragmentos
  end.

(** Row [y] lies in the half-open range of a fragment. *)
Definition en_fragmento (y : Z) (fragmento : Z * Z) : Prop :=
  fragmento.1 <= y < fragmento.2.

(** ** The parallel run

    [generar_fractal_paralelo] runs on the calling thread (the
    orchestrator) while up to four pool threads run the submitted tasks and
    the done-callbacks.  The run is a transition system; every transition
    is one atomic section of one thread:

    - the orchestrator submits a fragment and stamps the future, enters
      [with self.condicion], adds the callback to the next future (running
      it inline when the future is already done, as
      [Future.add_done_callback] does), starts [condicion.wait()], and
      leaves the wait after a notification;
    - a worker sets the result of its future, runs the first block of
      [_fragmento_completado] under [bloqueo_salida], and runs the second
      block, [notify()], under [condicion], which it can acquire only
      while the orchestrator does not hold it.

    Every transition carries the time [dt >= 0] that passed since the
    previous one. *)

(** Where a future is in its life. *)
Inductive estado_futuro :=
  | Corriendo                  (* submitted; result not set *)
  | Terminado (res : matriz)   (* result set; callback not run *)
  | Fusionado                  (* a worker merged the result; notify pending *)
  | Completo.                  (* the callback has returned *)

(** A [Future] with the attributes the orchestrator attaches to it. *)
Record futuro := {
  fragmento : Z * Z;           (* future.fragmento *)
  f_start_time : Q;            (* future.start_time *)
  con_callback : bool;         (* add_done_callback was called on it *)
  est : estado_futuro
}.

Definition con_est (e : estado_futuro) (fu : futuro) : futuro :=
  {| fragmento := fragmento fu; f_start_time := f_start_time fu;
     con_callback := con_callback fu; est := e |}.

Definition con_cb (fu : futuro) : futuro :=
  {| fragmento := fragmento fu; f_start_time := f_start_time fu;
     con_callback := true; est := est fu |}.

(** Where the orchestrator is in [generar_fractal_paralelo]. *)
Inductive fase :=
  | Sometiendo (pendientes : list (Z * Z))  (* the submit loop *)
  | Registrando (k : nat)    (* holds [condicion]; [k] callbacks added *)
  | Esperando                (* blocked in [condicion.wait()] *)
  | Despertado               (* notified; has to reacquire [condicion] *)
  | Retornado (tiempo_transcurrido : Q) (imagen : matriz).
      (* returned; [imagen] is the grid handed to [graficar_fractal] *)

Record estado := {
  objeto : FractalJulia;
  reloj : Q;                 (* the last reading of the clock *)
  start_time : Q;
  orquestador : fase;
  futures : list futuro;
  comunicaciones : list Q    (* the communication time of each merge of
                                this run, latest first *)
}.

Inductive evento :=
  | Someter                  (* lines 53-56, one iteration *)
  | Entrar                   (* line 59 *)
  | Registrar                (* line 61, one iteration *)
  | Esperar                  (* line 62: release [condicion] and block *)
  | Despertar                (* line 62 returns; lines 64-68 *)
  | Terminar (i : nat)       (* worker: task [i] returns, result is set *)
  | Fusionar (i : nat)       (* worker: lines 72-79 for future [i] *)
  | Notificar (i : nat).     (* worker: lines 81-82 for future [i] *)

(** Lines 72-79, the block of [_fragmento_completado] under
    [bloqueo_salida], at clock reading [ahora]. *)
Definition fusionar (self : FractalJulia) (fu : futuro)
    (fragmento_salida : matriz) (ahora : Q) : FractalJulia :=
  let '(inicio_y, fin_y) := fragmento fu in
  let self :=
    con_salida (asignar_filas inicio_y fin_y fragmento_salida (salida self)) self in
  match tiempo_comunicacion_total self with
  | Some t => con_tiempo (Some (t + (ahora - f_start_time fu))%Q) self
  | None => con_tiempo (Some (ahora - f_start_time fu)%Q) self
  end.

(** Lines 81-82, the block of [_fragmento_completado] under [condicion]:
    [notify()] wakes the orchestrator if it is waiting and is lost
    otherwise. *)
Definition notificar (o : fase) : fase :=
  match o with
  | Esperando => Despertado
  | _ => o
  end.

(** [condicion] is free: the orchestrator is outside the [with] block or
    inside [wait()]. *)
Definition condicion_libre (o : fase) : bool :=
  match o with
  | Esperando | Despertado | Retornado _ _ => true
  | Sometiendo _ | Registrando _ => false
  end.

(** The state when [generar_fractal_paralelo(c_real, c_imag)] is called at
    clock reading [ahora]. *)
Definition iniciar_paralelo (self : FractalJulia) (cr ci : float) (ahora : Q)
  : estado :=
  let self := con_c cr ci self in
  {| objeto := self; reloj := ahora; start_time := ahora;
     orquestador := Sometiendo (fragmentos self);
     futures := []; comunicaciones := [] |}.

Section Protocolo.
Context {ar : AritmeticaCompleja}.

(** The orchestrator moves to [o] at clock reading [ahora]. *)
Definition con_fase (o : fase) (s : estado) (ahora : Q) : estado :=
  {| objeto := objeto s; reloj := ahora; start_time := start_time s;
     orquestador := o; futures := futures s;
     comunicaciones := comunicaciones s |}.

(** Future [i] becomes [fu]; the orchestrator, the object and the log
    become [o], [self] and [com]. *)
Definition con_futuro (i : nat) (fu : futuro) (s : estado) (o : fase)
    (self : FractalJulia) (com : list Q) (ahora : Q) : estado :=
  {| objeto := self; reloj := ahora; start_time := start_time s;
     orquestador := o; futures := <[i := fu]> (futures s);
     comunicaciones := com |}.

(** Lines 53-56, one iteration of [for fragmento in fragmentos]. *)
Definition someter (s : estado) (ahora : Q) : option estado :=
  match orquestador s with
  | Sometiendo (fragmento :: resto) =>
      Some {| objeto := objeto s; reloj := ahora; start_time := start_time s;
              orquestador := Sometiendo resto;
              futures := futures s ++
                [{| fragmento := fragmento; f_start_time := ahora;
                    con_callback := false; est := Corriendo |}];
              comunicaciones := comunicaciones s |}
  | _ => None
  end.

(** Line 59, [with self.condicion:], once the submit loop is over. *)
Definition entrar (s : estado) (ahora : Q) : option estado :=
  match orquestador s with
  | Sometiendo [] => Some (con_fase (Registrando 0) s ahora)
  | _ => None
  end.

(** [_fragmento_completado(self, future, fragmento)] run from start to end
    by one thread, for future [k] with result [res], while the orchestrator
    is in phase [o]: lines 72-79, then lines 81-82. *)
Definition _fragmento_completado (k : nat) (fu : futuro) (res : matriz)
    (s : estado) (o : fase) (ahora : Q) : estado :=
  con_futuro k (con_est Completo fu) s (notificar o)
    (fusionar (objeto s) fu res ahora)
    ((ahora - f_start_time fu)%Q :: comunicaciones s) ahora.

(** Line 61, one iteration of [for future in futures].  On a future whose
    result is set, [add_done_callback] runs the callback at once, on the
    orchestrator, whose [notify()] finds nobody waiting. *)
Definition registrar (s : estado) (ahora : Q) : option estado :=
  match orquestador s with
  | Registrando k =>
      fu ← futures s !! k;
      match est fu with
      | Corriendo =>
          Some (con_futuro k (con_cb fu) s (Registrando (S k))
                  (objeto s) (comunicaciones s) ahora)
      | Terminado res =>
          Some (_fragmento_completado k (con_cb fu) res s
                  (Registrando (S k)) ahora)
      | _ => None
      end
  | _ => None
  end.

(** Line 62, after the last callback was added: [condicion.wait()]
    releases the condition and blocks. *)
Definition esperar (s : estado) (ahora : Q) : option estado :=
  match orquestador s with
  | Registrando k =>
      match futures s !! k with
      | Some _ => None
      | None => Some (con_fase Esperando s ahora)
      end
  | _ => None
  end.

(** Line 62 returns after a notification; lines 64-68. *)
Definition despertar (s : estado) (ahora : Q) : option estado :=
  match orquestador s with
  | Despertado =>
      Some (con_fase (Retornado (ahora - start_time s)%Q (salida (objeto s)))
              s ahora)
  | _ => None
  end.

(** A worker: [generar_fractal] returns for task [i] and its result is
    set. *)
Definition terminar (i : nat) (s : estado) (ahora : Q) : option estado :=
  fu ← futures s !! i;
  match est fu with
  | Corriendo =>
      res ← generar_fractal (objeto s) (fragmento fu);
      Some (con_futuro i (con_est (Terminado res) fu) s (orquestador s)
              (objeto s) (comunicaciones s) ahora)
  | _ => None
  end.

(** A worker: the callback stored in future [i] runs lines 72-79. *)
Definition fusionar_en_hilo (i : nat) (s : estado) (ahora : Q)
  : option estado :=
  fu ← futures s !! i;
  match est fu with
  | Terminado res =>
      if con_callback fu then
        Some (con_futuro i (con_est Fusionado fu) s (orquestador s)
                (fusionar (objeto s) fu res ahora)
                ((ahora - f_start_time fu)%Q :: comunicaciones s) ahora)
      else None
  | _ => None
  end.

(** A worker: the callback of future [i] runs lines 81-82, once it can
    acquire [condicion]. *)
Definition notificar_en_hilo (i : nat) (s : estado) (ahora : Q)
  : option estado :=
  fu ← futures s !! i;
  match est fu with
  | Fusionado =>
      if condicion_libre (orquestador s) then
        Some (con_futuro i (con_est Completo fu) s (notificar (orquestador s))
                (objeto s) (comunicaciones s) ahora)
      else None
  | _ => None
  end.

(** One transition; [None] when the event is not enabled. *)
Definition paso (s : estado) (dt : Q) (e : evento) : option estado :=
  if negb (Qle_bool 0 dt) then None else
  let ahora := (reloj s + dt)%Q in
  match e with
  | Someter => someter s ahora
  | Entrar => entrar s ahora
  | Registrar => registrar s ahora
  | Esperar => esperar s ahora
  | Despertar => despertar s ahora
  | Terminar i => terminar i s ahora
  | Fusionar i => fusionar_en_hilo i s ahora
  | Notificar i => notificar_en_hilo i s ahora
  end.

(** A run: the events of a trace, in order. *)
Fixpoint ejecutar (traza : list (Q * evento)) (s : estado) : option estado :=
  match traza with
  | [] => Some s
  | (dt, e) :: resto => s' ← paso s dt e; ejecutar resto s'
  end.

(** The state can be reached in a parallel run on [self]. *)
Definition alcanzable (self : FractalJulia) (cr ci : float) (t0 : Q)
    (s : estado) : Prop :=
  exists traza, ejecutar traza (iniciar_paralelo self cr ci t0) = Some s.

End Protocolo.

(** The result of future [fu] has been merged into [self.salida]. *)
Definition fusionado (fu : futuro) : bool :=
  match est fu with
  | Fusionado | Completo => true
  | _ => false
  end.

Definition completo (fu : futuro) : bool :=
  match est fu with
  | Completo => true
  | _ => false
  end.

(** All four fragments have been submitted and merged. *)
Definition todos_fusionados (s : estado) : bool :=
  match orquestador s with
  | Sometiendo _ => false
  | _ => forallb fusionado (futures s)
  end.

(** The orchestrator has returned from [generar_fractal_paralelo]. *)
Definition retornado (s : estado) : bool :=
  match orquestador s with
  | Retornado _ _ => true
  | _ => false
  end.

(** Sum of a list of durations. *)
Definition suma (l : list Q) : Q := foldr Qplus 0%Q l.

(** ** The life of an object *)

(** The calls made on one object, in order.  A sequential run takes
    [duracion]; a parallel run follows a trace of the protocol. *)
Inductive operacion :=
  | Secuencial (cr ci : float) (duracion : Q)
  | Paralelo (cr ci : float) (traza : list (Q * evento)).

(** The run has returned and no callback of it is still to run. *)
Definition quieto (s : estado) : bool :=
  retornado s && forallb completo (futures s).

(** The object, the clock, and the communication times of all merges so
    far (latest first). *)
Record momento := {
  m_objeto : FractalJulia;
  m_reloj : Q;
  m_historial : list Q
}.

Section Vida.
Context {ar : AritmeticaCompleja}.

(** One call.  The next call starts when this one has returned; the
    model follows a parallel run until its callbacks are done. *)
Definition aplicar (m : momento) (op : operacion) : option momento :=
  match op with
  | Secuencial cr ci duracion =>
      if Qle_bool 0 duracion then
        Some {| m_objeto := generar_fractal_secuencial (m_objeto m) cr ci;
                m_reloj := (m_reloj m + duracion)%Q;
                m_historial := m_historial m |}
      else None
  | Paralelo cr ci traza =>
      s ← ejecutar traza (iniciar_paralelo (m_objeto m) cr ci (m_reloj m));
      if quieto s then
        Some {| m_objeto := objeto s; m_reloj := reloj s;
                m_historial := comunicaciones s ++ m_historial m |}
      else None
  end.

Fixpoint vida (ops : list operacion) (m : momento) : option momento :=
  match ops with
  | [] => Some m
  | op :: resto => m' ← aplicar m op; vida resto m'
  end.

End Vida.

(** The object right after construction, at clock reading [ahora]. *)
Definition nacer (self : FractalJulia) (ahora : Q) : momento :=
  {| m_objeto := self; m_reloj := ahora; m_historial := [] |}.

(** ** Metrics *)

Record metricas := {
  latencia_por_tarea_secuencial : Q;
  latencia_por_tarea_paralelo : Q;
  throughput_secuencial : Q;
  throughput_paralelo : Q;
  speedup : Q;
  eficiencia : Q;
  granularidad : Q
}.

(** [a / b] with a float operand: Python raises ZeroDivisionError when
    [b == 0]. *)
Definition dividir (a b : Q) : excepcion + Q :=
  if Qeq_bool b 0 then inl ZeroDivisionError else inr (a / b)%Q.

Definition ligar {A B} (r : excepcion + A) (k : A -> excepcion + B)
  : excepcion + B :=
  match r with
  | inl e => inl e
  | inr a => k a
  end.

Notation "'sea' x ':=' r 'en' k" := (ligar r (fun x => k))
  (at level 10, x name, r at level 100, k at level 200, only parsing).

(** Lines 116-133 of [generar_fractal_y_graficar], from the two elapsed
    times the runs returned and the value of [os.cpu_count()]. *)
Definition calcular_metricas (fractal : FractalJulia)
    (tiempo_transcurrido_secuencial tiempo_transcurrido_paralelo : Q)
    (num_procesadores : Z) : excepcion + metricas :=
  let num_tareas_secuencial := inject_Z (alto fractal) in
  let num_tareas_paralelo := inject_Z (Z.of_nat (length (salida fractal))) in
  sea lat_s := dividir tiempo_transcurrido_secuencial num_tareas_secuencial en
  sea lat_p := dividir tiempo_transcurrido_paralelo num_tareas_paralelo en
  sea thr_s := dividir num_tareas_secuencial tiempo_transcurrido_secuencial en
  sea thr_p := dividir num_tareas_paralelo tiempo_transcurrido_paralelo en
  sea sp := dividir tiempo_transcurrido_secuencial tiempo_transcurrido_paralelo en
  sea ef := dividir sp (inject_Z num_procesadores) en
  match tiempo_comunicacion_total fractal with
  | None => inl AttributeError
  | Some tiempo_comunicacion =>
      sea gr := dividir tiempo_transcurrido_paralelo tiempo_comunicacion en
      inr {| latencia_por_tarea_secuencial := lat_s;
             latencia_por_tarea_paralelo := lat_p;
             throughput_secuencial := thr_s;
             throughput_paralelo := thr_p;
             speedup := sp;
             eficiencia := ef;
             granularidad := gr |}
  end.

(** ** Direct evaluation of the kernel on the grid *)

(** The shape recorded in the object is the shape of its grid; every
    object built by the constructor is of this kind and every method keeps
    it so. *)
Definition bien_formado (self : FractalJulia) : Prop :=
  0 <= alto self /\ 0 <= ancho self
  /\ forma (alto self) (ancho self) (salida self).

Section Directo.
Context {ar : AritmeticaCompleja}.

(** The kernel at the coordinate of cell [(x, y)], with constant [c]. *)
Definition celda (self : FractalJulia) (c : complejo) (x y : Z) : Z :=
  fractal_julia self c (coordenada self x y).

(** Row [y] of the grid, evaluated directly. *)
Definition fila_julia (self : FractalJulia) (c : complejo) (y : Z) : list Z :=
  (fun x => celda self c x y) <$> seqZ 0 (ancho self).

(** The whole grid, evaluated directly cell by cell. *)
Definition matriz_julia (self : FractalJulia) (c : complejo) : matriz :=
  fila_julia self c <$> seqZ 0 (alto self).

End Directo.

(** ** Invariants of a parallel run *)

(** The fragments that the submit loop has still to submit. *)
Definition pendientes (o : fase) : list (Z * Z) :=
  match o with
  | Sometiendo l => l
  | _ => []
  end.

Section Invariantes.
Context {ar : AritmeticaCompleja}.

(** A result that has been set is the block of its fragment, and a
    fragment that has been merged has its rows in the grid [m]. *)
Definition futuro_correcto (self0 : FractalJulia) (c : complejo) (m : matriz)
    (fu : futuro) : Prop :=
  (forall res,
     est fu = Terminado res ->
     res = fila_julia self0 c
             <$> seqZ (fragmento fu).1 ((fragmento fu).2 - (fragmento fu).1))
  /\ (fusionado fu = true ->
      forall y : nat,
        en_fragmento (Z.of_nat y) (fragmento fu) ->
        m !! y = matriz_julia self0 c !! y).

(** What every state of a run on [self0] with constant [cr + ci j]
    satisfies. *)
Record invariante (self0 : FractalJulia) (cr ci : float) (s : estado)
  : Prop := {
  inv_ancho : ancho (objeto s) = ancho self0;
  inv_alto : alto (objeto s) = alto self0;
  inv_max : max_iteraciones (objeto s) = max_iteraciones self0;
  inv_c_real : c_real (objeto s) = Some cr;
  inv_c_imag : c_imag (objeto s) = Some ci;
  inv_forma : forma (alto self0) (ancho self0) (salida (objeto s));
  inv_fragmentos :
    (fragmento <$> futures s) ++ pendientes (orquestador s) = fragmentos self0;
  inv_futuros :
    Forall (futuro_correcto self0 (Complejo cr ci) (salida (objeto s)))
           (futures s)
}.

End Invariantes.

(** ** Invariants of the protocol *)

(** A future on which [add_done_callback] was not called has not been
    merged. *)
Definition sin_callback_no_fusionado (fu : futuro) : Prop :=
  con_callback fu = false ->
  est fu = Corriendo \/ exists res, est fu = Terminado res.

(** The callbacks are added in order, inside the [with] block: before it
    no future has one, while [Registrando k] exactly the first [k] have
    one, afterwards all have one. *)
Definition invariante_protocolo (s : estado) : Prop :=
  Forall sin_callback_no_fusionado (futures s)
  /\ match orquestador s with
     | Sometiendo _ => Forall (fun fu => con_callback fu = false) (futures s)
     | Registrando k =>
         forall i fu, futures s !! i = Some fu ->
                      con_callback fu = bool_decide (i < k)%nat
     | _ => Forall (fun fu => con_callback fu = true) (futures s)
     end.

Section Fin.
Context {ar : AritmeticaCompleja}.

(** The run is over: no event is enabled (whether an event is enabled
    does not depend on the time it takes). *)
Definition terminada (s : estado) : Prop :=
  forall e, paso s 0%Q e = None.

End Fin.



(** ** Invariants of the accumulator *)

(** In a run that started with the accumulator at [a0]: the accumulator
    exists and is [a0] plus the communication times logged in this run; no
    future was stamped after the current clock reading; no logged
    communication time is negative. *)
Record invariante_tiempo (a0 : Q) (s : estado) : Prop := {
  it_total :
    exists t, tiempo_comunicacion_total (objeto s) = Some t
              /\ (t == a0 + suma (comunicaciones s))%Q;
  it_sellos : Forall (fun fu => (f_start_time fu <= reloj s)%Q) (futures s);
  it_comunicaciones : Forall (fun d => (0 <= d)%Q) (comunicaciones s)
}.

(** The value of the accumulator, when it exists, is [t]. *)
Definition acumulado (self : FractalJulia) (t : Q) : Prop :=
  exists t', tiempo_comunicacion_total self = Some t' /\ (t' == t)%Q.


(** ** Concrete runs

    Traces of a parallel run in which every step takes one unit of time.
    In [traza_completa] every task finishes after the orchestrator has
    started to wait, and the orchestrator leaves the wait after the last
    callback has returned. *)

Definition cada_segundo (eventos : list evento) : list (Q * evento) :=
  (fun e => (1%Q, e)) <$> eventos.

Definition traza_completa : list (Q * evento) :=
  cada_segundo
    [Someter; Someter; Someter; Someter; Entrar;
     Registrar; Registrar; Registrar; Registrar; Esperar;
     Terminar 0; Terminar 1; Terminar 2; Terminar 3;
     Fusionar 0; Fusionar 1; Fusionar 2; Fusionar 3;
     Notificar 0; Notificar 1; Notificar 2; Notificar 3; Despertar].

(** In [traza_prematura] the orchestrator waits, one task finishes, its
    callback notifies, and the orchestrator returns while three tasks are
    still running.  In [traza_bloqueo] the four tasks finish before the
    orchestrator adds the callbacks, which therefore all run on the
    orchestrator itself before it starts to wait. *)

Definition traza_prematura : list (Q * evento) :=
  cada_segundo
    [Someter; Someter; Someter; Someter; Entrar;
     Registrar; Registrar; Registrar; Registrar; Esperar;
     Terminar 0; Fusionar 0; Notificar 0; Despertar].

Definition traza_bloqueo : list (Q * evento) :=
  cada_segundo
    [Someter; Someter; Someter; Someter;
     Terminar 0; Terminar 1; Terminar 2; Terminar 3; Entrar;
     Registrar; Registrar; Registrar; Registrar; Esperar].

(** ** Concrete objects

    [FractalJulia(4, 4, 10)], [FractalJulia(4, 10, 10)] and
    [FractalJulia(4, 3, 10)] right after construction. *)

Definition objeto_nuevo (ancho alto max_iteraciones : Z) : FractalJulia :=
  {| ancho := ancho; alto := alto; max_iteraciones := max_iteraciones;
     salida := zeros alto ancho; tiempo_comunicacion_total := Some 0%Q;
     c_real := None; c_imag := None |}.

Definition objeto_4x4 : FractalJulia := objeto_nuevo 4 4 10.
Definition objeto_4x10 : FractalJulia := objeto_nuevo 4 10 10.
Definition objeto_4x3 : FractalJulia := objeto_nuevo 4 3 10.

(** ** The caller of the two runs *)

Section Llamador.
Context {ar : AritmeticaCompleja}.

(** [generar_fractal_y_graficar(fractal, c_real, c_imag)], lines 113-133:
    the sequential run, which takes [duracion]; the parallel run, under the
    schedule [traza]; then the metrics, read off the object in the state
    [s] the schedule ends in.  [None] when the clock would go backwards or
    when [generar_fractal_paralelo] has not returned at the end of the
    schedule (line 115 is never reached if it is blocked in the wait). *)
Definition generar_fractal_y_graficar (fractal : FractalJulia) (ahora : Q)
    (cr ci : float) (duracion : Q) (traza : list (Q * evento))
    (num_procesadores : Z) : option (estado * (excepcion + metricas)) :=
  if Qle_bool 0 duracion then
    let tiempo_transcurrido_secuencial := duracion in
    let fractal := generar_fractal_secuencial fractal cr ci in
    s ← ejecutar traza (iniciar_paralelo fractal cr ci (ahora + duracion)%Q);
    match orquestador s with
    | Retornado tiempo_transcurrido_paralelo _ =>
        Some (s, calcular_metricas (objeto s) tiempo_transcurrido_secuencial
                   tiempo_transcurrido_paralelo num_procesadores)
    | _ => None
    end
  else None.

End Llamador.

(** ** Measures used in the further properties *)

(** The number of rows of a fragment. *)
Definition filas_de (fr : Z * Z) : Z := fr.2 - fr.1.

(** 1 for a future whose result has been merged, 0 otherwise. *)
Definition fusion_hecha (fu : futuro) : nat :=
  if fusionado fu then 1%nat else 0%nat.

(** The number of futures whose result has been merged. *)
Definition fusiones (s : estado) : nat :=
  sum_list_with fusion_hecha (futures s).

(** The orchestrator has been woken from the wait. *)
Definition despierto (o : fase) : bool :=
  match o with
  | Despertado | Retornado _ _ => true
  | _ => false
  end.

(** The event is the [notify()] of a callback that a worker runs. *)
Definition es_notificacion (e : evento) : bool :=
  match e with
  | Notificar _ => true
  | _ => false
  end.

(** The event merges a result into the grid: a stored callback run by a
    worker, or, for a future that is done when the orchestrator adds its
    callback, that very step of the orchestrator. *)
Definition fusiona (s : estado) (e : evento) (i : nat) : Prop :=
  e = Fusionar i \/ (e = Registrar /\ orquestador s = Registrando i).

Section Cuadro.
Context {ar : AritmeticaCompleja}.

(** The grid of the object, and the grid handed to [graficar_fractal] if
    the orchestrator has returned, are the grid of [self0] evaluated
    directly with constant [c]. *)
Definition cuadro_completo (self0 : FractalJulia) (c : complejo) (s : estado)
  : Prop :=
  salida (objeto s) = matriz_julia self0 c
  /\ forall t imagen, orquestador s = Retornado t imagen ->
                      imagen = matriz_julia self0 c.

End Cuadro.

(** The clock has not gone back since the run started, and the elapsed
    time that a returned run reports is not negative. *)
Definition invariante_reloj (s : estado) : Prop :=
  (start_time s <= reloj s)%Q
  /\ forall t imagen, orquestador s = Retornado t imagen -> (0 <= t)%Q.


(** * Properties *)

(** ** The planner *)

Lemma fragmentos_lista self :
  let t := alto self / 4 in
  fragmentos self = [(0, t); (t, 2 * t); (2 * t, 3 * t); (3 * t, alto self)].
Proof.
  unfold fragmentos.
  change (seqZ 0 4) with [0; 1; 2; 3]. cbn [fmap list_fmap last length pred].
  cbn [insert list_insert fst].
  repeat f_equal; lia.
Qed.

Lemma tamano_cota (h : Z) : 0 <= h -> 0 <= h / 4 /\ 4 * (h / 4) <= h < 4 * (h / 4) + 4.
Proof.
  intros Hh. pose proof (Z.div_mod h 4 ltac:(lia)).
  pose proof (Z.mod_pos_bound h 4 ltac:(lia)). split; [apply Z.div_pos|]; lia.
Qed.

Lemma fragmentos_ordenados self fr :
  0 <= alto self -> fr ∈ fragmentos self -> 0 <= fr.1 <= fr.2 /\ fr.2 <= alto self.
Proof.
  intros Hh. rewrite fragmentos_lista. pose proof (tamano_cota _ Hh).
  rewrite !elem_of_cons, elem_of_nil.
  intros [->|[->|[->|[->|[]]]]]; cbn [fst snd]; lia.
Qed.

Lemma fragmentos_contiguos self i a b :
  fragmentos self !! i = Some a -> fragmentos self !! S i = Some b -> a.2 = b.1.
Proof.
  rewrite fragmentos_lista.
  destruct i as [|[|[|[|i]]]]; cbn; intros; simplify_eq; cbn; lia.
Qed.

Lemma fragmentos_disjuntos self i j a b y :
  0 <= alto self -> i <> j ->
  fragmentos self !! i = Some a -> fragmentos self !! j = Some b ->
  en_fragmento y a -> ~ en_fragmento y b.
Proof.
  intros Hh Hij. rewrite fragmentos_lista. pose proof (tamano_cota _ Hh).
  unfold en_fragmento.
  destruct i as [|[|[|[|i]]]]; destruct j as [|[|[|[|j]]]]; cbn;
    intros; simplify_eq; cbn in *; lia.
Qed.

Lemma fragmentos_union self y :
  0 <= alto self ->
  0 <= y < alto self <-> exists fr, fr ∈ fragmentos self /\ en_fragmento y fr.
Proof.
  intros Hh. rewrite fragmentos_lista. pose proof (tamano_cota _ Hh).
  unfold en_fragmento. split.
  - intros Hy.
    destruct (Z_lt_dec y (alto self / 4)); [eexists; split; [apply list_elem_of_here|cbn; lia]|].
    destruct (Z_lt_dec y (2 * (alto self / 4)));
      [eexists; split; [do 1 apply list_elem_of_further; apply list_elem_of_here|cbn; lia]|].
    destruct (Z_lt_dec y (3 * (alto self / 4)));
      [eexists; split; [do 2 apply list_elem_of_further; apply list_elem_of_here|cbn; lia]|].
    eexists; split; [do 3 apply list_elem_of_further; apply list_elem_of_here|cbn; lia].
  - intros (fr & Hfr & Hy). revert Hfr Hy. rewrite !elem_of_cons, elem_of_nil.
    intros [->|[->|[->|[->|[]]]]]; cbn [fst snd]; lia.
Qed.

Example fragmentos_altura_10 :
  fragmentos objeto_4x10 = [(0, 2); (2, 4); (4, 6); (6, 10)].
Proof. reflexivity. Qed.

Example fragmentos_altura_3 :
  fragmentos objeto_4x3 = [(0, 0); (0, 0); (0, 0); (0, 3)].
Proof. reflexivity. Qed.

(** C3: for a height of at least four rows the four planned fragments are
    contiguous half-open row ranges, pairwise disjoint, and cover exactly
    [0, alto); each of the first three spans [alto // 4] rows and the last
    one runs from its start to [alto]. *)
Theorem fragmentos_particion_exacta self :
  4 <= alto self ->
  let t := alto self / 4 in
  length (fragmentos self) = 4%nat
  /\ (forall fr, fr ∈ fragmentos self -> fr.1 <= fr.2)
  /\ (forall i a b,
        fragmentos self !! i = Some a -> fragmentos self !! S i = Some b ->
        a.2 = b.1)
  /\ (forall i j a b y,
        i <> j -> fragmentos self !! i = Some a -> fragmentos self !! j = Some b ->
        en_fragmento y a -> ~ en_fragmento y b)
  /\ (forall y,
        0 <= y < alto self <->
        exists fr, fr ∈ fragmentos self /\ en_fragmento y fr)
  /\ (forall i fr,
        (i < 3)%nat -> fragmentos self !! i = Some fr -> fr.2 - fr.1 = t)
  /\ (exists inicio,
        last (fragmentos self) = Some (inicio, alto self) /\ inicio = 3 * t).
Proof.
  intros Hh t. assert (0 <= alto self) as Hh0 by lia.
  split; [|split; [|split; [|split; [|split; [|split]]]]].
  - rewrite fragmentos_lista. reflexivity.
  - intros fr Hfr. apply (fragmentos_ordenados self fr Hh0 Hfr).
  - apply fragmentos_contiguos.
  - intros i j a b y. apply fragmentos_disjuntos; assumption.
  - intros y. apply fragmentos_union; assumption.
  - intros i fr Hi. rewrite fragmentos_lista. subst t.
    destruct i as [|[|[|i]]]; cbn; intros; simplify_eq; cbn; lia.
  - exists (3 * t). rewrite fragmentos_lista. split; reflexivity.
Qed.

Lemma fragmentos_particion_exacta_testigo :
  4 <= alto objeto_4x10 /\ length (fragmentos objeto_4x10) = 4%nat.
Proof.
  assert (4 <= alto objeto_4x10) as Hh by (cbn; lia).
  split; [exact Hh|].
  exact (proj1 (fragmentos_particion_exacta objeto_4x10 Hh)).
Defined.

(** C10: for every height [alto >= 0], also below four, the four planned
    row ranges are pairwise disjoint and cover exactly [0, alto); below
    four the band size is 0, the first three fragments are empty and the
    last one is [(0, alto)]. *)
Theorem fragmentos_particion_toda_altura self :
  0 <= alto self ->
  length (fragmentos self) = 4%nat
  /\ (forall i j a b y,
        i <> j -> fragmentos self !! i = Some a -> fragmentos self !! j = Some b ->
        en_fragmento y a -> ~ en_fragmento y b)
  /\ (forall y,
        0 <= y < alto self <->
        exists fr, fr ∈ fragmentos self /\ en_fragmento y fr)
  /\ (alto self < 4 ->
        alto self / 4 = 0
        /\ fragmentos self = [(0, 0); (0, 0); (0, 0); (0, alto self)]
        /\ (forall i fr y,
              (i < 3)%nat -> fragmentos self !! i = Some fr -> ~ en_fragmento y fr)).
Proof.
  intros Hh. split; [|split; [|split]].
  - rewrite fragmentos_lista. reflexivity.
  - intros i j a b y. apply fragmentos_disjuntos; assumption.
  - intros y. apply fragmentos_union; assumption.
  - intros Hlt. assert (alto self / 4 = 0) as Ht by (apply Z.div_small; lia).
    split; [exact Ht|]. rewrite fragmentos_lista, Ht. split; [reflexivity|].
    unfold en_fragmento.
    intros i fr y Hi. destruct i as [|[|[|i]]]; cbn; intros; simplify_eq; cbn in *; lia.
Qed.

Lemma fragmentos_particion_toda_altura_testigo :
  0 <= alto objeto_4x3 /\ length (fragmentos objeto_4x3) = 4%nat.
Proof.
  assert (0 <= alto objeto_4x3) as Hh by (cbn; lia).
  split; [exact Hh|].
  exact (proj1 (fragmentos_particion_toda_altura objeto_4x3 Hh)).
Defined.

(** ** The kernel *)

Section PropiedadesNucleo.
Context {ar : AritmeticaCompleja}.

Lemma mientras_eq (m : Z) (c z : complejo) (n : Z) :
  mientras m c z n =
  if (abs_c z <=? 2)%float && (n <? m)
  then mientras m c (suma_c (potencia2 z) c) (n + 1)
  else n.
Proof.
  funelim (mientras m c z n); rewrite e; reflexivity.
Qed.

Lemma mientras_cuenta (m : Z) (c : complejo) (d : nat) :
  forall (z : complejo) (n : Z),
    n <= m -> Z.to_nat (m - n) = d ->
    exists k : nat,
      mientras m c z n = n + Z.of_nat k
      /\ n + Z.of_nat k <= m
      /\ (forall j, (j < k)%nat -> (abs_c (orbita c z j) <=? 2)%float = true)
      /\ (n + Z.of_nat k = m \/ (abs_c (orbita c z k) <=? 2)%float = false).
Proof.
  induction d as [|d IH]; intros z n Hn Hd; rewrite mientras_eq.
  - assert (n = m) as -> by lia.
    rewrite Z.ltb_irrefl, andb_false_r.
    exists 0%nat. split; [lia|]. split; [lia|]. split; [lia|]. left; lia.
  - destruct (abs_c z <=? 2)%float eqn:Habs; cbn [andb].
    + destruct (n <? m) eqn:Hlt.
      * apply Z.ltb_lt in Hlt.
        destruct (IH (suma_c (potencia2 z) c) (n + 1)) as (k & Hk & Hle & Hin & Hout);
          [lia | lia |].
        exists (S k). rewrite Hk. split; [lia|]. split; [lia|]. split.
        -- intros [|j] Hj; cbn [orbita]; [exact Habs | apply Hin; lia].
        -- cbn [orbita]. destruct Hout as [Hout|Hout]; [left; lia | right; exact Hout].
      * apply Z.ltb_ge in Hlt.
        exists 0%nat. split; [lia|]. split; [lia|]. split; [lia|]. left; lia.
    + exists 0%nat. split; [lia|]. split; [lia|]. split; [lia|]. right. exact Habs.
Qed.

Lemma mientras_python_eq (m : Z) (c z : complejo) (n : Z) :
  mientras_python m c z n =
  match ronda m c z n with
  | inl e => inl e
  | inr None => inr n
  | inr (Some z') => mientras_python m c z' (n + 1)
  end.
Proof.
  funelim (mientras_python m c z n);
    match goal with
    | Hr : ronda _ _ _ _ = _ |- _ => rewrite Hr; reflexivity
    end.
Qed.

Lemma orbita_siguiente (c : complejo) (j : nat) : forall z,
  orbita c z (S j) = suma_c (potencia2 (orbita c z j)) c.
Proof.
  induction j as [|j IH]; intros z; [reflexivity|].
  change (orbita c z (S (S j))) with (orbita c (suma_c (potencia2 z) c) (S j)).
  rewrite IH. reflexivity.
Qed.

(** The rounds before round [k] were performed: [abs(z)] returned a value
    that is at most 2, and [z**2] returned. *)
Lemma mientras_python_cuenta (m : Z) (c : complejo) (d : nat) :
  forall (z : complejo) (n : Z),
    n <= m -> Z.to_nat (m - n) = d ->
    exists k : nat,
      n + Z.of_nat k <= m
      /\ (forall j, (j < k)%nat ->
            abs_desborda (orbita c z j) = false
            /\ (abs_c (orbita c z j) <=? 2)%float = true
            /\ potencia2_desborda (orbita c z j) = false)
      /\ ((mientras_python m c z n = inr (n + Z.of_nat k)
           /\ mientras m c z n = n + Z.of_nat k
           /\ abs_desborda (orbita c z k) = false
           /\ (n + Z.of_nat k = m
               \/ (abs_c (orbita c z k) <=? 2)%float = false))
          \/ (mientras_python m c z n = inl OverflowError
              /\ (abs_desborda (orbita c z k) = true
                  \/ (abs_desborda (orbita c z k) = false
                      /\ (abs_c (orbita c z k) <=? 2)%float = true
                      /\ n + Z.of_nat k < m
                      /\ potencia2_desborda (orbita c z k) = true)))).
Proof.
  induction d as [|d IH]; intros z n Hn Hd;
    rewrite mientras_python_eq, mientras_eq; unfold ronda, abs_python.
  - assert (n = m) as -> by lia.
    exists 0%nat. split; [lia|]. split; [lia|]. cbn [orbita].
    destruct (abs_desborda z) eqn:Hd0; cbv beta iota;
      rewrite !Z.ltb_irrefl, !andb_false_r.
    + right. split; [reflexivity|]. left. reflexivity.
    + left. split; [f_equal; lia|]. split; [lia|]. split; [reflexivity|].
      left. lia.
  - destruct (abs_desborda z) eqn:Hd0; cbv beta iota.
    { exists 0%nat. split; [lia|]. split; [lia|]. right.
      split; [reflexivity|]. left. exact Hd0. }
    destruct (abs_c z <=? 2)%float eqn:Habs; cbn [andb].
    + destruct (n <? m) eqn:Hlt.
      * apply Z.ltb_lt in Hlt. unfold potencia2_python.
        destruct (potencia2_desborda z) eqn:Hp; cbv beta iota.
        { exists 0%nat. split; [lia|]. split; [lia|]. right.
          split; [reflexivity|]. right. cbn [orbita].
          split; [exact Hd0|]. split; [exact Habs|]. split; [lia|exact Hp]. }
        destruct (IH (suma_c (potencia2 z) c) (n + 1))
          as (k & Hle & Hin & Hfin); [lia | lia |].
        exists (S k). split; [lia|]. split.
        -- intros [|j] Hj; cbn [orbita].
           ++ split; [exact Hd0|]. split; [exact Habs|exact Hp].
           ++ apply Hin. lia.
        -- cbn [orbita].
           replace (n + Z.of_nat (S k)) with (n + 1 + Z.of_nat k) by lia.
           exact Hfin.
      * apply Z.ltb_ge in Hlt.
        exists 0%nat. split; [lia|]. split; [lia|]. left. cbn [orbita].
        split; [f_equal; lia|]. split; [lia|]. split; [exact Hd0|]. left. lia.
    + exists 0%nat. split; [lia|]. split; [lia|]. left. cbn [orbita].
      split; [f_equal; lia|]. split; [lia|]. split; [exact Hd0|].
      right. exact Habs.
Qed.

(** C5, amended: for every constant [c] and starting value [z], and a cap
    that is not negative, the call terminates (the loop is defined by
    recursion on the iterations left under the cap) and performs a number
    [k <= max_iteraciones] of rounds of [z = z**2 + c], whose values are
    [orbita c z]: in each of them [abs(z)] returned a value that is at
    most 2 and [z**2] returned.  Then either the call returns [k], because
    the cap was reached or [abs(z) <= 2] failed, or it raises
    OverflowError, because [abs(z)] raised, or [z**2] raised under the
    cap.  It raises nothing else, and a count it returns lies in
    [0, max_iteraciones] and is the value of [fractal_julia]. *)
Theorem fractal_julia_cuenta (self : FractalJulia) (c z : complejo) :
  0 <= max_iteraciones self ->
  orbita c z 0 = z
  /\ (forall j,
        orbita c z (S j)
        = Complejo (real (potencia2 (orbita c z j)) + real c)%float
                   (imag (potencia2 (orbita c z j)) + imag c)%float)
  /\ exists k : nat,
       0 <= Z.of_nat k <= max_iteraciones self
       /\ (forall j, (j < k)%nat ->
             abs_python (orbita c z j) = inr (abs_c (orbita c z j))
             /\ (abs_c (orbita c z j) <=? 2)%float = true
             /\ potencia2_python (orbita c z j)
                = inr (potencia2 (orbita c z j)))
       /\ ((fractal_julia_python self c z = inr (Z.of_nat k)
            /\ fractal_julia self c z = Z.of_nat k
            /\ abs_python (orbita c z k) = inr (abs_c (orbita c z k))
            /\ (Z.of_nat k = max_iteraciones self
                \/ (abs_c (orbita c z k) <=? 2)%float = false))
           \/ (fractal_julia_python self c z = inl OverflowError
               /\ (abs_python (orbita c z k) = inl OverflowError
                   \/ (abs_python (orbita c z k) = inr (abs_c (orbita c z k))
                       /\ (abs_c (orbita c z k) <=? 2)%float = true
                       /\ Z.of_nat k < max_iteraciones self
                       /\ potencia2_python (orbita c z k)
                          = inl OverflowError)))).
Proof.
  intros Hmax. split; [reflexivity|]. split.
  - intros j. rewrite orbita_siguiente. reflexivity.
  - unfold fractal_julia_python, fractal_julia, abs_python, potencia2_python.
    destruct (mientras_python_cuenta (max_iteraciones self) c _ z 0 Hmax eq_refl)
      as (k & Hle & Hin & Hfin).
    exists k. split; [lia|]. split.
    + intros j Hj. destruct (Hin j Hj) as (Ha & Hb & Hp).
      rewrite Ha, Hp. split; [reflexivity|]. split; [exact Hb|reflexivity].
    + destruct Hfin as [(Hr & Ht & Ha & Hout)|(Hr & Hcausa)].
      * left. rewrite Hr, Ht, Ha. split; [reflexivity|]. split; [reflexivity|].
        split; [reflexivity|].
        destruct Hout as [Hout|Hout]; [left; lia|right; exact Hout].
      * right. split; [exact Hr|].
        destruct Hcausa as [Ha|(Ha & Hb & Hlt & Hp)]; rewrite Ha.
        -- left. reflexivity.
        -- right. rewrite Hp. split; [reflexivity|]. split; [exact Hb|].
           split; [lia|reflexivity].
Qed.

End PropiedadesNucleo.

Lemma fractal_julia_cuenta_testigo :
  0 <= max_iteraciones objeto_4x4 /\
  exists k : nat,
    0 <= Z.of_nat k <= 10
    /\ (fractal_julia_python (ar := aritmetica_ref) objeto_4x4
          (Complejo (-0.75) 0.125) (Complejo (-0.5) 0) = inr (Z.of_nat k)
        \/ fractal_julia_python (ar := aritmetica_ref) objeto_4x4
             (Complejo (-0.75) 0.125) (Complejo (-0.5) 0) = inl OverflowError).
Proof.
  assert (0 <= max_iteraciones objeto_4x4) as Hmax by (cbn; lia).
  split; [exact Hmax|].
  destruct (fractal_julia_cuenta (ar := aritmetica_ref) objeto_4x4
              (Complejo (-0.75) 0.125) (Complejo (-0.5) 0) Hmax)
    as (_ & _ & k & Hk & _ & [(Hr & _)|(Hr & _)]).
  - exists k. split; [exact Hk|]. left. exact Hr.
  - exists k. split; [exact Hk|]. right. exact Hr.
Defined.

(** C5, as the claim states it, fails: [abs(z)] raises OverflowError when
    [hypot] leaves the binary64 range, so the kernel does not return a
    count for every [c] and [z].  With [z = 1.5e308 + 1.5e308j] the first
    evaluation of the loop test raises; with the grid point
    [z = -0.5 + 0j] and [c = 1.5e308 + 1.5e308j] the second one does. *)
Lemma fractal_julia_desborda :
  ~ (forall (self : FractalJulia) (c z : complejo),
       0 <= max_iteraciones self ->
       exists n, fractal_julia_python (ar := aritmetica_ref) self c z = inr n
                 /\ 0 <= n <= max_iteraciones self)
  /\ fractal_julia_python (ar := aritmetica_ref) objeto_4x4 (Complejo 0 0)
       (Complejo 0x1.ab36d48e1acfp+1023 0x1.ab36d48e1acfp+1023)
     = inl OverflowError
  /\ fractal_julia_python (ar := aritmetica_ref) objeto_4x4
       (Complejo 0x1.ab36d48e1acfp+1023 0x1.ab36d48e1acfp+1023)
       (Complejo (-0.5) 0)
     = inl OverflowError.
Proof.
  assert (fractal_julia_python (ar := aritmetica_ref) objeto_4x4 (Complejo 0 0)
            (Complejo 0x1.ab36d48e1acfp+1023 0x1.ab36d48e1acfp+1023)
          = inl OverflowError) as Hz by (vm_compute; reflexivity).
  split; [|split; [exact Hz|vm_compute; reflexivity]].
  intros Hclaim.
  destruct (Hclaim objeto_4x4 (Complejo 0 0)
              (Complejo 0x1.ab36d48e1acfp+1023 0x1.ab36d48e1acfp+1023)
              ltac:(cbn; lia)) as (n & Hn & _).
  rewrite Hz in Hn. discriminate Hn.
Qed.

Example fractal_julia_centro :
  fractal_julia (ar := aritmetica_ref) objeto_4x4 (Complejo 0 0) (Complejo (-0.5) 0)
  = 10.
Proof. vm_compute. reflexivity. Qed.

Example fractal_julia_esquina :
  fractal_julia (ar := aritmetica_ref) objeto_4x4 (Complejo 0 0) (Complejo (-2) (-1.5))
  = 0.
Proof. vm_compute. reflexivity. Qed.

(** ** Construction *)

Lemma init_exito ancho alto max_iteraciones :
  0 <= alto -> 0 <= ancho ->
  __init__ ancho alto max_iteraciones = inr (objeto_nuevo ancho alto max_iteraciones).
Proof.
  intros Hh Hw. unfold __init__.
  destruct (alto <? 0) eqn:E1; [apply Z.ltb_lt in E1; lia|].
  destruct (ancho <? 0) eqn:E2; [apply Z.ltb_lt in E2; lia|].
  reflexivity.
Qed.

Lemma init_fallo ancho alto max_iteraciones :
  alto < 0 \/ ancho < 0 -> __init__ ancho alto max_iteraciones = inl ValueError.
Proof.
  intros Hneg. unfold __init__.
  destruct (alto <? 0) eqn:E1; [reflexivity|].
  destruct (ancho <? 0) eqn:E2; [reflexivity|].
  apply Z.ltb_ge in E1, E2. lia.
Qed.

(** C7, as the claim states it, fails: [FractalJulia(800, 3, 100)] has a
    height below the fragment count and the constructor returns the
    object. *)
Lemma init_acepta_altura_menor_que_cuatro :
  ~ (3 < 4 -> exists e, __init__ 800 3 100 = inl e).
Proof.
  intros Hrej. destruct (Hrej ltac:(lia)) as [e He].
  vm_compute in He. discriminate He.
Qed.

(** C7, amended: the constructor checks nothing about the fragment count.
    It fails exactly when a dimension is negative (the ValueError of
    [np.zeros]); for every height [0 <= alto < 4] and width [ancho >= 0] it
    returns the object, and a later parallel run plans on it the fragments
    [(0, 0)], [(0, 0)], [(0, 0)], [(0, alto)]. *)
Theorem init_sin_validacion (an al mi : Z) :
  (__init__ an al mi = inl ValueError <-> al < 0 \/ an < 0)
  /\ (0 <= al < 4 -> 0 <= an ->
      exists self,
        __init__ an al mi = inr self
        /\ alto self = al
        /\ forall cr ci t0,
             orquestador (iniciar_paralelo self cr ci t0)
             = Sometiendo [(0, 0); (0, 0); (0, 0); (0, al)]).
Proof.
  split.
  - split.
    + intros Hi. destruct (Z_lt_dec al 0); [left; assumption|].
      destruct (Z_lt_dec an 0); [right; assumption|].
      rewrite init_exito in Hi by lia. discriminate Hi.
    + apply init_fallo.
  - intros Hh Hw. exists (objeto_nuevo an al mi).
    split; [apply init_exito; lia|]. split; [reflexivity|].
    intros cr ci t0. cbn [iniciar_paralelo orquestador].
    rewrite fragmentos_lista. cbn [alto con_c objeto_nuevo].
    rewrite (Z.div_small al 4) by lia. reflexivity.
Qed.

Lemma init_sin_validacion_testigo :
  exists self, __init__ 800 3 100 = inr self /\ alto self = 3.
Proof.
  destruct (proj2 (init_sin_validacion 800 3 100) ltac:(lia) ltac:(lia))
    as (self & Hi & Ha & _).
  exists self. split; assumption.
Defined.

(** ** Metrics *)

Lemma dividir_inr a b q : dividir a b = inr q <-> ~ (b == 0)%Q /\ q = (a / b)%Q.
Proof.
  unfold dividir. destruct (Qeq_bool b 0) eqn:E.
  - apply Qeq_bool_iff in E. split; [discriminate|]. intros [Hb _]. contradiction.
  - apply Qeq_bool_neq in E. split.
    + intros Hq. split; [exact E|]. congruence.
    + intros [_ ->]. reflexivity.
Qed.

Lemma dividir_cero a b : (b == 0)%Q -> dividir a b = inl ZeroDivisionError.
Proof.
  intros Hb. unfold dividir. apply Qeq_bool_iff in Hb. rewrite Hb. reflexivity.
Qed.

Lemma dividir_no_cero a b : ~ (b == 0)%Q -> dividir a b = inr (a / b)%Q.
Proof. intros Hb. apply dividir_inr. split; [exact Hb|reflexivity]. Qed.

(** C8, as the claim states it, fails: with a parallel run that took no
    measurable time ([tiempo_transcurrido_paralelo = 0]) the throughput
    division is performed and raises ZeroDivisionError; no branch guards
    it. *)
Lemma calcular_metricas_divide_por_cero :
  ~ (forall fractal t_sec t_par num_procesadores,
       calcular_metricas fractal t_sec t_par num_procesadores
       <> inl ZeroDivisionError).
Proof.
  intros Hguard.
  apply (Hguard (con_tiempo (Some 1%Q) objeto_4x4) 1%Q 0%Q 4).
  vm_compute. reflexivity.
Qed.

(** C8, amended: the metrics are computed by seven unguarded divisions.
    On an object whose accumulator exists, they are all produced exactly
    when every divisor (the two elapsed times, the two task counts, the
    processor count and the communication time) is nonzero; when a divisor
    is zero the division is performed and raises ZeroDivisionError. *)
Theorem calcular_metricas_sin_guardas fractal t_sec t_par num_procesadores tc :
  tiempo_comunicacion_total fractal = Some tc ->
  let nts := inject_Z (alto fractal) in
  let ntp := inject_Z (Z.of_nat (length (salida fractal))) in
  let divisores := [nts; ntp; t_sec; t_par; inject_Z num_procesadores; tc] in
  (Forall (fun d => ~ (d == 0)%Q) divisores ->
     calcular_metricas fractal t_sec t_par num_procesadores =
     inr {| latencia_por_tarea_secuencial := (t_sec / nts)%Q;
            latencia_por_tarea_paralelo := (t_par / ntp)%Q;
            throughput_secuencial := (nts / t_sec)%Q;
            throughput_paralelo := (ntp / t_par)%Q;
            speedup := (t_sec / t_par)%Q;
            eficiencia := (t_sec / t_par / inject_Z num_procesadores)%Q;
            granularidad := (t_par / tc)%Q |})
  /\ (Exists (fun d => (d == 0)%Q) divisores ->
     calcular_metricas fractal t_sec t_par num_procesadores =
     inl ZeroDivisionError).
Proof.
  intros Htc nts ntp divisores. unfold calcular_metricas. rewrite Htc.
  fold nts ntp. subst divisores. split.
  - rewrite !Forall_cons. intros (H1 & H2 & H3 & H4 & H5 & H6 & _).
    do 7 (rewrite dividir_no_cero by assumption; cbn [ligar]). reflexivity.
  - rewrite !Exists_cons, Exists_nil.
    destruct (Qeq_dec nts 0) as [E1|E1]; [rewrite (dividir_cero _ nts E1); reflexivity|].
    rewrite (dividir_no_cero _ nts E1). cbn [ligar].
    destruct (Qeq_dec ntp 0) as [E2|E2]; [rewrite (dividir_cero _ ntp E2); reflexivity|].
    rewrite (dividir_no_cero _ ntp E2). cbn [ligar].
    destruct (Qeq_dec t_sec 0) as [E3|E3]; [rewrite (dividir_cero _ t_sec E3); reflexivity|].
    rewrite (dividir_no_cero _ t_sec E3). cbn [ligar].
    destruct (Qeq_dec t_par 0) as [E4|E4]; [rewrite (dividir_cero _ t_par E4); reflexivity|].
    rewrite !(dividir_no_cero _ t_par E4). cbn [ligar].
    destruct (Qeq_dec (inject_Z num_procesadores) 0) as [E5|E5];
      [rewrite (dividir_cero _ _ E5); reflexivity|].
    rewrite (dividir_no_cero _ _ E5). cbn [ligar].
    destruct (Qeq_dec tc 0) as [E6|E6]; [rewrite (dividir_cero _ tc E6); reflexivity|].
    intros [?|[?|[?|[?|[?|[?|[]]]]]]]; contradiction.
Qed.

Lemma calcular_metricas_sin_guardas_testigo :
  calcular_metricas (con_tiempo (Some 2%Q) objeto_4x4) 3%Q 0%Q 4
  = inl ZeroDivisionError.
Proof.
  apply (proj2 (calcular_metricas_sin_guardas
                  (con_tiempo (Some 2%Q) objeto_4x4) 3%Q 0%Q 4 2%Q eq_refl)).
  do 3 apply Exists_cons_tl. apply Exists_cons_hd. reflexivity.
Defined.

(** ** Filling a grid cell by cell *)

Lemma seqZ_to_nat (a n : Z) : seqZ a n = seqZ a (Z.of_nat (Z.to_nat n)).
Proof. unfold seqZ. rewrite Nat2Z.id. reflexivity. Qed.

Lemma foldl_igual {A B} (f g : A -> B -> A) (l : list B) (a : A) :
  (forall a b, f a b = g a b) -> foldl f a l = foldl g a l.
Proof.
  intros Hfg. revert a. induction l as [|b l IH]; intros a; cbn [foldl].
  - reflexivity.
  - rewrite Hfg. apply IH.
Qed.

Lemma foldl_alter_fila (g : Z -> Z) (i : nat) (l : list Z) (m : matriz) :
  foldl (fun m x => alter (fun fila => <[Z.to_nat x := g x]> fila) i m) m l
  = alter (fun fila => foldl (fun fila x => <[Z.to_nat x := g x]> fila) fila l) i m.
Proof.
  revert m. induction l as [|x l IH]; intros m; cbn [foldl].
  - symmetry. apply list_alter_id. reflexivity.
  - rewrite IH, list_alter_alter_eq. reflexivity.
Qed.

Lemma llenar_fila_prefijo (g : Z -> Z) (fila : list Z) (k : nat) :
  (k <= length fila)%nat ->
  foldl (fun fila x => <[Z.to_nat x := g x]> fila) fila (seqZ 0 (Z.of_nat k))
  = (g <$> seqZ 0 (Z.of_nat k)) ++ drop k fila.
Proof.
  induction k as [|k IH]; intros Hk.
  - cbn. rewrite drop_0. reflexivity.
  - rewrite seqZ_S, foldl_app, IH by lia. cbn [foldl].
    rewrite Z.add_0_l, Nat2Z.id.
    destruct (lookup_lt_is_Some_2 fila k ltac:(lia)) as [v Hv].
    rewrite (drop_S _ _ _ Hv).
    rewrite insert_app_r_alt by (rewrite length_fmap, length_seqZ; lia).
    rewrite length_fmap, length_seqZ, Nat2Z.id, Nat.sub_diag. cbn [insert list_insert].
    rewrite fmap_app, <- app_assoc. reflexivity.
Qed.

Lemma llenar_fila (g : Z -> Z) (fila : list Z) (w : Z) :
  0 <= w -> length fila = Z.to_nat w ->
  foldl (fun fila x => <[Z.to_nat x := g x]> fila) fila (seqZ 0 w) = g <$> seqZ 0 w.
Proof.
  intros Hw Hlen. rewrite (seqZ_to_nat 0 w).
  rewrite llenar_fila_prefijo by lia.
  rewrite <- Hlen, drop_all, app_nil_r. reflexivity.
Qed.

Lemma llenar_filas_prefijo (F : Z -> list Z -> list Z) (G : Z -> list Z)
    (a : Z) (m : matriz) (k : nat) :
  (forall y fila, fila ∈ m -> F y fila = G y) ->
  (k <= length m)%nat ->
  foldl (fun m y => alter (F y) (Z.to_nat (y - a)) m) m (seqZ a (Z.of_nat k))
  = (G <$> seqZ a (Z.of_nat k)) ++ drop k m.
Proof.
  intros HF. induction k as [|k IH]; intros Hk.
  - cbn. rewrite drop_0. reflexivity.
  - rewrite seqZ_S, foldl_app, IH by lia. cbn [foldl].
    replace (Z.to_nat (a + Z.of_nat k - a)) with k by lia.
    destruct (lookup_lt_is_Some_2 m k ltac:(lia)) as [v Hv].
    rewrite (drop_S _ _ _ Hv).
    rewrite alter_app_r_alt by (rewrite length_fmap, length_seqZ; lia).
    rewrite length_fmap, length_seqZ, Nat2Z.id, Nat.sub_diag. cbn [alter list_alter].
    rewrite (HF _ v) by (eapply list_elem_of_lookup_2; exact Hv).
    rewrite fmap_app, <- app_assoc. reflexivity.
Qed.

Lemma llenar_filas (F : Z -> list Z -> list Z) (G : Z -> list Z)
    (a h : Z) (m : matriz) :
  (forall y fila, fila ∈ m -> F y fila = G y) ->
  length m = Z.to_nat h ->
  foldl (fun m y => alter (F y) (Z.to_nat (y - a)) m) m (seqZ a h) = G <$> seqZ a h.
Proof.
  intros HF Hlen. rewrite (seqZ_to_nat a h).
  rewrite (llenar_filas_prefijo F G) by (assumption || lia).
  rewrite <- Hlen, drop_all, app_nil_r. reflexivity.
Qed.

(** The nested loops of the source, with cell function [g]. *)
Lemma llenar_matriz (g : Z -> Z -> Z) (a h w : Z) (m : matriz) :
  0 <= w -> forma h w m ->
  foldl (fun m y =>
           foldl (fun m x => asignar (y - a) x (g x y) m) m (seqZ 0 w))
        m (seqZ a h)
  = (fun y => (fun x => g x y) <$> seqZ 0 w) <$> seqZ a h.
Proof.
  intros Hw [Hlen Hfilas]. unfold asignar.
  rewrite (foldl_igual _
             (fun m y =>
                alter (fun fila =>
                         foldl (fun fila x => <[Z.to_nat x := g x y]> fila) fila (seqZ 0 w))
                      (Z.to_nat (y - a)) m))
    by (intros m' y; apply (foldl_alter_fila (fun x => g x y))).
  apply (llenar_filas
           (fun y fila => foldl (fun fila x => <[Z.to_nat x := g x y]> fila) fila (seqZ 0 w))
           (fun y => (fun x => g x y) <$> seqZ 0 w)); [|exact Hlen].
  intros y fila Hfila. apply llenar_fila; [exact Hw|].
  rewrite Forall_forall in Hfilas. apply Hfilas. exact Hfila.
Qed.

Lemma forma_zeros (h w : Z) : forma h w (zeros h w).
Proof.
  unfold forma, zeros. split; [apply length_replicate|].
  apply Forall_replicate. apply length_replicate.
Qed.

(** ** What the loops compute *)

Section PropiedadesCalculo.
Context {ar : AritmeticaCompleja}.

Lemma length_fila_julia self c y :
  length (fila_julia self c y) = Z.to_nat (ancho self).
Proof. unfold fila_julia. rewrite length_fmap, length_seqZ. reflexivity. Qed.

Lemma forma_matriz_julia self c :
  forma (alto self) (ancho self) (matriz_julia self c).
Proof.
  unfold forma, matriz_julia. rewrite length_fmap, length_seqZ. split; [reflexivity|].
  apply Forall_fmap, Forall_forall. intros y _. apply length_fila_julia.
Qed.

Lemma lookup_matriz_julia self c (y : nat) :
  Z.of_nat y < alto self ->
  matriz_julia self c !! y = Some (fila_julia self c (Z.of_nat y)).
Proof.
  intros Hy. unfold matriz_julia.
  rewrite list_lookup_fmap, lookup_seqZ_lt by lia. reflexivity.
Qed.

Lemma lookup_fila_julia self c y (x : nat) :
  Z.of_nat x < ancho self ->
  fila_julia self c y !! x = Some (celda self c (Z.of_nat x) y).
Proof.
  intros Hx. unfold fila_julia.
  rewrite list_lookup_fmap, lookup_seqZ_lt by lia. reflexivity.
Qed.

(** A fragment task returns the rows of its range, evaluated directly. *)
Lemma generar_fractal_directo self cr ci (a b : Z) :
  0 <= ancho self -> c_real self = Some cr -> c_imag self = Some ci ->
  generar_fractal self (a, b)
  = Some (fila_julia self (Complejo cr ci) <$> seqZ a (b - a)).
Proof.
  intros Hw Hcr Hci. unfold generar_fractal. rewrite Hcr, Hci. cbn [mbind option_bind].
  f_equal.
  apply (llenar_matriz (fun x y => celda self (Complejo cr ci) x y));
    [exact Hw | apply forma_zeros].
Qed.

(** The sequential run leaves in [self.salida] the grid evaluated
    directly. *)
Lemma generar_fractal_secuencial_directo self cr ci :
  bien_formado self ->
  salida (generar_fractal_secuencial self cr ci)
  = matriz_julia self (Complejo cr ci).
Proof.
  intros (Hh & Hw & Hforma). unfold generar_fractal_secuencial.
  cbn [salida con_salida con_c ancho alto].
  rewrite (foldl_igual _
             (fun m y =>
                foldl (fun m x =>
                         asignar (y - 0) x (celda self (Complejo cr ci) x y) m)
                      m (seqZ 0 (ancho self))))
    by (intros m y; rewrite Z.sub_0_r; reflexivity).
  apply (llenar_matriz (fun x y => celda self (Complejo cr ci) x y));
    assumption.
Qed.

End PropiedadesCalculo.

Example secuencial_4x4 :
  salida (generar_fractal_secuencial (ar := aritmetica_ref) objeto_4x4 0 0)
  = [[0; 1; 1; 1]; [0; 1; 10; 10]; [1; 2; 10; 10]; [0; 1; 10; 10]].
Proof. vm_compute. reflexivity. Qed.

(** ** The merge *)

Lemma forma_asignar_filas (h w a b : Z) (bloque m : matriz) :
  forma h w m -> forma (b - a) w bloque -> forma h w (asignar_filas a b bloque m).
Proof.
  intros [Hlen Hfilas] [_ Hbloque]. unfold forma, asignar_filas.
  rewrite length_imap. split; [exact Hlen|].
  apply Forall_forall. intros fila Hfila.
  apply elem_of_lookup_imap_1 in Hfila as (y & fila0 & -> & Hy).
  assert (length fila0 = Z.to_nat w) as H0
    by (rewrite Forall_forall in Hfilas; eapply Hfilas, list_elem_of_lookup_2, Hy).
  destruct ((a <=? Z.of_nat y) && (Z.of_nat y <? b)); [|exact H0].
  destruct (bloque !! Z.to_nat (Z.of_nat y - a)) as [fila1|] eqn:E; cbn; [|exact H0].
  rewrite Forall_forall in Hbloque. eapply Hbloque, list_elem_of_lookup_2, E.
Qed.

Lemma lookup_asignar_filas_dentro (a b : Z) (G : Z -> list Z) (m : matriz) (y : nat) :
  0 <= a -> a <= Z.of_nat y < b -> (y < length m)%nat ->
  asignar_filas a b (G <$> seqZ a (b - a)) m !! y = Some (G (Z.of_nat y)).
Proof.
  intros Ha Hy Hlen. unfold asignar_filas. rewrite list_lookup_imap.
  destruct (lookup_lt_is_Some_2 m y Hlen) as [fila Hfila]. rewrite Hfila. cbn.
  destruct (a <=? Z.of_nat y) eqn:E1; [|apply Z.leb_gt in E1; lia].
  destruct (Z.of_nat y <? b) eqn:E2; [|apply Z.ltb_ge in E2; lia]. cbn.
  rewrite list_lookup_fmap, lookup_seqZ_lt by lia. cbn.
  do 2 f_equal. lia.
Qed.

Lemma lookup_asignar_filas_fuera (a b : Z) (bloque m : matriz) (y : nat) :
  ~ (a <= Z.of_nat y < b) ->
  asignar_filas a b bloque m !! y = m !! y.
Proof.
  intros Hy. unfold asignar_filas. rewrite list_lookup_imap.
  destruct (m !! y) as [fila|]; [|reflexivity]. cbn.
  destruct (a <=? Z.of_nat y) eqn:E1; [|reflexivity].
  destruct (Z.of_nat y <? b) eqn:E2; [|reflexivity].
  apply Z.leb_le in E1. apply Z.ltb_lt in E2. lia.
Qed.

(** ** The grid during a parallel run *)

Section PropiedadesProtocolo.
Context {ar : AritmeticaCompleja}.

Lemma fila_julia_igual self self' c y :
  ancho self = ancho self' -> alto self = alto self' ->
  max_iteraciones self = max_iteraciones self' ->
  fila_julia self c y = fila_julia self' c y.
Proof.
  intros Hw Hh Hm. unfold fila_julia, celda, fractal_julia, coordenada,
    real_de_columna, imag_de_fila.
  rewrite Hw, Hh, Hm. reflexivity.
Qed.

Lemma fusionar_estatico self fu res ahora :
  ancho (fusionar self fu res ahora) = ancho self
  /\ alto (fusionar self fu res ahora) = alto self
  /\ max_iteraciones (fusionar self fu res ahora) = max_iteraciones self
  /\ c_real (fusionar self fu res ahora) = c_real self
  /\ c_imag (fusionar self fu res ahora) = c_imag self
  /\ salida (fusionar self fu res ahora)
     = asignar_filas (fragmento fu).1 (fragmento fu).2 res (salida self).
Proof.
  unfold fusionar. destruct (fragmento fu) as [a b]. cbn.
  destruct (tiempo_comunicacion_total self); cbn; repeat split; reflexivity.
Qed.

Lemma pendientes_notificar o : pendientes (notificar o) = pendientes o.
Proof. destruct o; reflexivity. Qed.

Lemma fmap_fragmento_insert (l : list futuro) i fu fu' :
  l !! i = Some fu -> fragmento fu' = fragmento fu ->
  fragmento <$> <[i := fu']> l = fragmento <$> l.
Proof.
  intros Hi Hfr. rewrite list_fmap_insert, Hfr.
  apply list_insert_id. rewrite list_lookup_fmap, Hi. reflexivity.
Qed.

Variable self0 : FractalJulia.
Variables cr ci : float.
Hypothesis Hbf : bien_formado self0.

Lemma fusion_filas (a b : Z) (m : matriz) (y : nat) :
  forma (alto self0) (ancho self0) m ->
  0 <= a -> b <= alto self0 -> a <= Z.of_nat y < b ->
  asignar_filas a b (fila_julia self0 (Complejo cr ci) <$> seqZ a (b - a)) m !! y
  = matriz_julia self0 (Complejo cr ci) !! y.
Proof.
  intros [Hlen _] Ha Hb Hy.
  rewrite lookup_asignar_filas_dentro by lia.
  rewrite lookup_matriz_julia by lia. reflexivity.
Qed.

Lemma fusion_conserva (a b : Z) (m : matriz) (fu : futuro) :
  forma (alto self0) (ancho self0) m ->
  0 <= a -> b <= alto self0 ->
  futuro_correcto self0 (Complejo cr ci) m fu ->
  futuro_correcto self0 (Complejo cr ci)
    (asignar_filas a b (fila_julia self0 (Complejo cr ci) <$> seqZ a (b - a)) m) fu.
Proof.
  intros Hforma Ha Hb [Hres Hfus]. split; [exact Hres|].
  intros Hf y Hy.
  destruct (decide (a <= Z.of_nat y < b)) as [Hin|Hout].
  - apply fusion_filas; assumption.
  - rewrite lookup_asignar_filas_fuera by exact Hout. apply Hfus; assumption.
Qed.

Lemma forma_bloque (a b : Z) :
  forma (b - a) (ancho self0) (fila_julia self0 (Complejo cr ci) <$> seqZ a (b - a)).
Proof.
  unfold forma. rewrite length_fmap, length_seqZ. split; [reflexivity|].
  apply Forall_fmap, Forall_forall. intros y _. apply length_fila_julia.
Qed.

Lemma invariante_inicial t0 :
  invariante self0 cr ci (iniciar_paralelo self0 cr ci t0).
Proof.
  destruct Hbf as (Hh & Hw & Hforma).
  split; cbn; try reflexivity; [exact Hforma | apply Forall_nil_2].
Qed.

Lemma invariante_con_fase s o ahora :
  invariante self0 cr ci s -> pendientes o = pendientes (orquestador s) ->
  invariante self0 cr ci (con_fase o s ahora).
Proof.
  intros [Hw Hh Hm Hcr Hci Hforma Hfrag Hfut] Ho.
  split; cbn; try assumption. rewrite Ho. exact Hfrag.
Qed.

Lemma invariante_con_futuro s i fu fu' o com ahora :
  invariante self0 cr ci s ->
  futures s !! i = Some fu -> fragmento fu' = fragmento fu ->
  futuro_correcto self0 (Complejo cr ci) (salida (objeto s)) fu' ->
  pendientes o = pendientes (orquestador s) ->
  invariante self0 cr ci (con_futuro i fu' s o (objeto s) com ahora).
Proof.
  intros [Hw Hh Hm Hcr Hci Hforma Hfrag Hfut] Hi Hfr Hfu' Ho.
  split; cbn; try assumption.
  - rewrite Ho, (fmap_fragmento_insert _ _ fu) by assumption. exact Hfrag.
  - apply Forall_insert; assumption.
Qed.

Lemma fragmento_planificado s i fu :
  invariante self0 cr ci s -> futures s !! i = Some fu ->
  0 <= (fragmento fu).1 <= (fragmento fu).2 /\ (fragmento fu).2 <= alto self0.
Proof.
  intros Hinv Hi. destruct Hbf as (Hh0 & _).
  apply fragmentos_ordenados; [exact Hh0|].
  rewrite <- (inv_fragmentos _ _ _ _ Hinv). apply elem_of_app. left.
  apply list_elem_of_fmap. exists fu. split; [reflexivity|].
  eapply list_elem_of_lookup_2, Hi.
Qed.

Lemma invariante_fusion s i fu fu' res o com ahora :
  invariante self0 cr ci s ->
  futures s !! i = Some fu -> est fu = Terminado res ->
  fragmento fu' = fragmento fu -> fusionado fu' = true ->
  pendientes o = pendientes (orquestador s) ->
  invariante self0 cr ci
    (con_futuro i fu' s o (fusionar (objeto s) fu res ahora) com ahora).
Proof.
  intros Hinv Hi Hest Hfr Hfus Ho.
  pose proof (fragmento_planificado s i fu Hinv Hi) as (Hab & Hb).
  destruct Hinv as [Hw Hh Hm Hcr Hci Hforma Hfrag Hfut].
  destruct (fusionar_estatico (objeto s) fu res ahora)
    as (Ew & Eh & Em & Ecr & Eci & Esal).
  assert (res = fila_julia self0 (Complejo cr ci)
                  <$> seqZ (fragmento fu).1 ((fragmento fu).2 - (fragmento fu).1))
    as Hres.
  { rewrite Forall_forall in Hfut.
    apply (Hfut fu (list_elem_of_lookup_2 _ _ _ Hi)). exact Hest. }
  split; cbn; try congruence.
  - rewrite Esal, Hres. apply forma_asignar_filas; [exact Hforma|apply forma_bloque].
  - rewrite Ho, (fmap_fragmento_insert _ _ fu) by assumption. exact Hfrag.
  - rewrite Esal, Hres. apply Forall_insert.
    + eapply Forall_impl; [exact Hfut|]. intros fu0 Hfu0.
      apply fusion_conserva; (assumption || lia).
    + split.
      * intros res' Hres'. unfold fusionado in Hfus. rewrite Hres' in Hfus.
        discriminate Hfus.
      * intros _ y Hy. rewrite Hfr in Hy.
        apply fusion_filas; [exact Hforma| lia | lia | exact Hy].
Qed.

Lemma invariante_paso s dt e s' :
  invariante self0 cr ci s -> paso s dt e = Some s' -> invariante self0 cr ci s'.
Proof.
  intros Hinv Hpaso.
  unfold paso in Hpaso. destruct (Qle_bool 0 dt); cbn [negb] in Hpaso; [|discriminate].
  destruct e.
  - unfold someter in Hpaso.
    destruct (orquestador s) as [[|fr resto]| | | |] eqn:Ho; try discriminate.
    injection Hpaso as <-.
    destruct Hinv as [Hw Hh Hm Hcr Hci Hforma Hfrag Hfut].
    split; cbn; try assumption.
    + rewrite Ho in Hfrag. cbn in Hfrag. rewrite fmap_app, <- app_assoc. exact Hfrag.
    + apply Forall_app. split; [exact Hfut|]. apply Forall_singleton.
      split; [intros res Hres; discriminate Hres | intros Hf; discriminate Hf].
  - unfold entrar in Hpaso.
    destruct (orquestador s) as [[|fr resto]| | | |] eqn:Ho; try discriminate.
    injection Hpaso as <-. apply invariante_con_fase; [exact Hinv|].
    rewrite Ho. reflexivity.
  - unfold registrar in Hpaso.
    destruct (orquestador s) as [l|k| | |] eqn:Ho; try discriminate.
    destruct (futures s !! k) as [fu|] eqn:Hk; [|discriminate]. cbn in Hpaso.
    destruct (est fu) as [|res| |] eqn:Hest; try discriminate;
      injection Hpaso as <-.
    + eapply invariante_con_futuro; [exact Hinv|exact Hk|reflexivity| |rewrite Ho; reflexivity].
      pose proof (inv_futuros _ _ _ _ Hinv) as Hfut. rewrite Forall_forall in Hfut.
      destruct (Hfut fu (list_elem_of_lookup_2 _ _ _ Hk)) as [Hres Hfus].
      split; [exact Hres|]. unfold fusionado. cbn. rewrite Hest. discriminate.
    + apply (invariante_fusion s k fu (con_est Completo (con_cb fu)) res);
        [exact Hinv|exact Hk|exact Hest|reflexivity|reflexivity|rewrite Ho; reflexivity].
  - unfold esperar in Hpaso.
    destruct (orquestador s) as [l|k| | |] eqn:Ho; try discriminate.
    destruct (futures s !! k); [discriminate|].
    injection Hpaso as <-. apply invariante_con_fase; [exact Hinv|].
    rewrite Ho. reflexivity.
  - unfold despertar in Hpaso.
    destruct (orquestador s) eqn:Ho; try discriminate.
    injection Hpaso as <-. apply invariante_con_fase; [exact Hinv|].
    rewrite Ho. reflexivity.
  - unfold terminar in Hpaso.
    destruct (futures s !! i) as [fu|] eqn:Hi; [|discriminate]. cbn in Hpaso.
    destruct (est fu) eqn:Hest; try discriminate.
    destruct (generar_fractal (objeto s) (fragmento fu)) as [res|] eqn:Hgen;
      [|discriminate].
    injection Hpaso as <-.
    eapply invariante_con_futuro; [exact Hinv|exact Hi|reflexivity| |reflexivity].
    split; [|intros Hf; discriminate Hf].
    cbn. intros res' [= <-].
    destruct Hinv as [Hw Hh Hm Hcr Hci Hforma Hfrag Hfut].
    destruct Hbf as (_ & Hw0 & _).
    rewrite (surjective_pairing (fragmento fu)) in Hgen.
    rewrite (generar_fractal_directo _ cr ci) in Hgen by (assumption || lia).
    cbn [fst snd] in Hgen.
    injection Hgen as <-. apply list_fmap_ext. intros _ y _.
    apply fila_julia_igual; assumption.
  - unfold fusionar_en_hilo in Hpaso.
    destruct (futures s !! i) as [fu|] eqn:Hi; [|discriminate]. cbn in Hpaso.
    destruct (est fu) as [|res| |] eqn:Hest; try discriminate.
    destruct (con_callback fu); [|discriminate].
    injection Hpaso as <-.
    eapply invariante_fusion;
      [exact Hinv|exact Hi|exact Hest|reflexivity|reflexivity|reflexivity].
  - unfold notificar_en_hilo in Hpaso.
    destruct (futures s !! i) as [fu|] eqn:Hi; [|discriminate]. cbn in Hpaso.
    destruct (est fu) eqn:Hest; try discriminate.
    destruct (condicion_libre (orquestador s)); [|discriminate].
    injection Hpaso as <-.
    eapply invariante_con_futuro;
      [exact Hinv|exact Hi|reflexivity| |apply pendientes_notificar].
    pose proof (inv_futuros _ _ _ _ Hinv) as Hfut. rewrite Forall_forall in Hfut.
    destruct (Hfut fu (list_elem_of_lookup_2 _ _ _ Hi)) as [Hres Hfus].
    split; [intros res Hres'; discriminate Hres'|].
    intros _. apply Hfus. unfold fusionado. rewrite Hest. reflexivity.
Qed.

Lemma invariante_ejecutar traza : forall s s',
  invariante self0 cr ci s -> ejecutar traza s = Some s' ->
  invariante self0 cr ci s'.
Proof.
  induction traza as [|[dt e] traza IH]; intros s s' Hinv Hej; cbn in Hej.
  - injection Hej as <-. exact Hinv.
  - destruct (paso s dt e) as [s1|] eqn:Hp; [|discriminate]. cbn in Hej.
    apply (IH s1 s'); [|exact Hej]. eapply invariante_paso; eassumption.
Qed.

Lemma invariante_alcanzable t0 s :
  alcanzable self0 cr ci t0 s -> invariante self0 cr ci s.
Proof.
  intros [traza Hej]. eapply invariante_ejecutar; [apply invariante_inicial|exact Hej].
Qed.

End PropiedadesProtocolo.

(** ** The protocol *)

Section PropiedadesOrden.
Context {ar : AritmeticaCompleja}.

Lemma invariante_protocolo_inicial self cr ci t0 :
  invariante_protocolo (iniciar_paralelo self cr ci t0).
Proof. split; cbn; apply Forall_nil_2. Qed.

Lemma sin_callback_con_est fu e :
  (con_callback fu = false -> e = Corriendo \/ exists res, e = Terminado res) ->
  sin_callback_no_fusionado (con_est e fu).
Proof. intros He Hcb. apply He. exact Hcb. Qed.

Lemma callback_de_fusionado fu :
  sin_callback_no_fusionado fu -> est fu = Fusionado -> con_callback fu = true.
Proof.
  intros Hfu Hest. destruct (con_callback fu) eqn:Hcb; [reflexivity|].
  destruct (Hfu Hcb) as [Hc|[res Hc]]; congruence.
Qed.

Lemma invariante_protocolo_paso s dt e s' :
  invariante_protocolo s -> paso s dt e = Some s' -> invariante_protocolo s'.
Proof.
  intros [Hsin Hfase] Hpaso.
  unfold paso in Hpaso. destruct (Qle_bool 0 dt); cbn [negb] in Hpaso; [|discriminate].
  destruct e.
  - unfold someter in Hpaso.
    destruct (orquestador s) as [[|fr resto]| | | |]; try discriminate.
    injection Hpaso as <-. split; cbn.
    + apply Forall_app. split; [exact Hsin|]. apply Forall_singleton.
      intros _. left. reflexivity.
    + apply Forall_app. split; [exact Hfase|]. apply Forall_singleton. reflexivity.
  - unfold entrar in Hpaso.
    destruct (orquestador s) as [[|fr resto]| | | |]; try discriminate.
    injection Hpaso as <-. split; cbn; [exact Hsin|].
    intros i fu Hi. rewrite Forall_forall in Hfase.
    rewrite (Hfase fu (list_elem_of_lookup_2 _ _ _ Hi)).
    symmetry. apply bool_decide_eq_false. lia.
  - unfold registrar in Hpaso.
    destruct (orquestador s) as [l|k| | |]; try discriminate.
    destruct (futures s !! k) as [fu|] eqn:Hk; [|discriminate]. cbn in Hpaso.
    destruct (est fu) as [|res| |] eqn:Hest; try discriminate;
      injection Hpaso as <-; split; cbn.
    + apply Forall_insert; [exact Hsin|]. intros Hcb. discriminate Hcb.
    + intros i fu' Hi. destruct (decide (i = k)) as [->|Hne].
      * rewrite list_lookup_insert_eq in Hi by (eapply lookup_lt_Some, Hk).
        injection Hi as <-. cbn. symmetry. apply bool_decide_eq_true. lia.
      * rewrite list_lookup_insert_ne in Hi by congruence.
        rewrite (Hfase i fu' Hi). apply bool_decide_ext. lia.
    + apply Forall_insert; [exact Hsin|]. intros Hcb. discriminate Hcb.
    + intros i fu' Hi. destruct (decide (i = k)) as [->|Hne].
      * rewrite list_lookup_insert_eq in Hi by (eapply lookup_lt_Some, Hk).
        injection Hi as <-. cbn. symmetry. apply bool_decide_eq_true. lia.
      * rewrite list_lookup_insert_ne in Hi by congruence.
        rewrite (Hfase i fu' Hi). apply bool_decide_ext. lia.
  - unfold esperar in Hpaso.
    destruct (orquestador s) as [l|k| | |]; try discriminate.
    destruct (futures s !! k) eqn:Hk; [discriminate|].
    injection Hpaso as <-. split; cbn; [exact Hsin|].
    apply Forall_lookup. intros i fu Hi. rewrite (Hfase i fu Hi).
    apply bool_decide_eq_true. apply lookup_ge_None in Hk.
    apply lookup_lt_Some in Hi. lia.
  - unfold despertar in Hpaso.
    destruct (orquestador s); try discriminate.
    injection Hpaso as <-. split; cbn; assumption.
  - unfold terminar in Hpaso.
    destruct (futures s !! i) as [fu|] eqn:Hi; [|discriminate]. cbn in Hpaso.
    destruct (est fu); try discriminate.
    destruct (generar_fractal (objeto s) (fragmento fu)) as [res|]; [|discriminate].
    injection Hpaso as <-. split; cbn.
    + apply Forall_insert; [exact Hsin|]. apply sin_callback_con_est.
      intros _. right. eexists. reflexivity.
    + destruct (orquestador s).
      * apply Forall_insert; [exact Hfase|]. cbn. rewrite Forall_forall in Hfase.
        apply Hfase. eapply list_elem_of_lookup_2, Hi.
      * intros j fu' Hj. destruct (decide (j = i)) as [->|Hne].
        -- rewrite list_lookup_insert_eq in Hj by (eapply lookup_lt_Some, Hi).
           injection Hj as <-. cbn. apply (Hfase i fu Hi).
        -- rewrite list_lookup_insert_ne in Hj by congruence. apply (Hfase j fu' Hj).
      * apply Forall_insert; [exact Hfase|]. cbn. rewrite Forall_forall in Hfase.
        apply Hfase. eapply list_elem_of_lookup_2, Hi.
      * apply Forall_insert; [exact Hfase|]. cbn. rewrite Forall_forall in Hfase.
        apply Hfase. eapply list_elem_of_lookup_2, Hi.
      * apply Forall_insert; [exact Hfase|]. cbn. rewrite Forall_forall in Hfase.
        apply Hfase. eapply list_elem_of_lookup_2, Hi.
  - unfold fusionar_en_hilo in Hpaso.
    destruct (futures s !! i) as [fu|] eqn:Hi; [|discriminate]. cbn in Hpaso.
    destruct (est fu) as [|res| |]; try discriminate.
    destruct (con_callback fu) eqn:Hcb; [|discriminate].
    injection Hpaso as <-. split; cbn.
    + apply Forall_insert; [exact Hsin|]. intros Hcb'. cbn in Hcb'. congruence.
    + destruct (orquestador s).
      * apply Forall_insert; [exact Hfase|]. cbn. rewrite Forall_forall in Hfase.
        apply Hfase. eapply list_elem_of_lookup_2, Hi.
      * intros j fu' Hj. destruct (decide (j = i)) as [->|Hne].
        -- rewrite list_lookup_insert_eq in Hj by (eapply lookup_lt_Some, Hi).
           injection Hj as <-. cbn. apply (Hfase i fu Hi).
        -- rewrite list_lookup_insert_ne in Hj by congruence. apply (Hfase j fu' Hj).
      * apply Forall_insert; [exact Hfase|]. exact Hcb.
      * apply Forall_insert; [exact Hfase|]. exact Hcb.
      * apply Forall_insert; [exact Hfase|]. exact Hcb.
  - unfold notificar_en_hilo in Hpaso.
    destruct (futures s !! i) as [fu|] eqn:Hi; [|discriminate]. cbn in Hpaso.
    destruct (est fu) eqn:Hest; try discriminate.
    destruct (condicion_libre (orquestador s)) eqn:Hlibre; [|discriminate].
    injection Hpaso as <-.
    assert (con_callback fu = true) as Hcb.
    { apply callback_de_fusionado; [|exact Hest].
      rewrite Forall_forall in Hsin. eapply Hsin, list_elem_of_lookup_2, Hi. }
    split; cbn.
    + apply Forall_insert; [exact Hsin|]. intros Hcb'. cbn in Hcb'. congruence.
    + destruct (orquestador s); try discriminate Hlibre; cbn;
        (apply Forall_insert; [exact Hfase|exact Hcb]).
Qed.

Lemma invariante_protocolo_ejecutar traza : forall s s',
  invariante_protocolo s -> ejecutar traza s = Some s' -> invariante_protocolo s'.
Proof.
  induction traza as [|[dt e] traza IH]; intros s s' Hinv Hej; cbn in Hej.
  - injection Hej as <-. exact Hinv.
  - destruct (paso s dt e) as [s1|] eqn:Hp; [|discriminate]. cbn in Hej.
    apply (IH s1 s'); [|exact Hej]. eapply invariante_protocolo_paso; eassumption.
Qed.

End PropiedadesOrden.

Section PropiedadesFin.
Context {ar : AritmeticaCompleja}.

Lemma generar_fractal_definido self cr ci fr :
  c_real self = Some cr -> c_imag self = Some ci ->
  exists res, generar_fractal self fr = Some res.
Proof.
  intros Hcr Hci. unfold generar_fractal. rewrite Hcr, Hci. cbn.
  destruct fr as [a b]. eexists. reflexivity.
Qed.

(** A run that can make no transition has run every callback, and its
    orchestrator is blocked in the wait or has returned. *)
Lemma terminada_todo_completo self cr ci t0 s :
  bien_formado self -> alcanzable self cr ci t0 s -> terminada s ->
  (orquestador s = Esperando \/ retornado s = true)
  /\ Forall (fun fu => est fu = Completo) (futures s).
Proof.
  intros Hbf Halc Hfin.
  pose proof (invariante_alcanzable self cr ci Hbf t0 s Halc) as Hinv.
  destruct Halc as [traza Hej].
  pose proof (invariante_protocolo_ejecutar traza _ s
                (invariante_protocolo_inicial self cr ci t0) Hej) as [Hsin Hfase].
  assert (forall e, paso s 0 e <> None -> False) as Hno
    by (intros e He; apply He, Hfin).
  assert (orquestador s = Esperando \/ retornado s = true) as Ho.
  { unfold retornado. destruct (orquestador s) as [[|fr l]|k| | |] eqn:Ho.
    - exfalso. apply (Hno Entrar). unfold paso, entrar. cbn. rewrite Ho. discriminate.
    - exfalso. apply (Hno Someter). unfold paso, someter. cbn. rewrite Ho. discriminate.
    - exfalso. destruct (futures s !! k) as [fu|] eqn:Hk.
      + apply (Hno Registrar). unfold paso, registrar. cbn. rewrite Ho, Hk. cbn.
        rewrite Forall_forall in Hsin.
        destruct (Hsin fu (list_elem_of_lookup_2 _ _ _ Hk)) as [Hc|[res Hc]].
        * rewrite (Hfase k fu Hk). apply bool_decide_eq_false. lia.
        * rewrite Hc. discriminate.
        * rewrite Hc. discriminate.
      + apply (Hno Esperar). unfold paso, esperar. cbn. rewrite Ho, Hk. discriminate.
    - left. reflexivity.
    - exfalso. apply (Hno Despertar). unfold paso, despertar. cbn. rewrite Ho.
      discriminate.
    - right. reflexivity. }
  split; [exact Ho|].
  assert (condicion_libre (orquestador s) = true
          /\ Forall (fun fu => con_callback fu = true) (futures s)) as [Hlibre Hcb].
  { unfold retornado in Ho.
    destruct (orquestador s); destruct Ho as [Ho|Ho]; try discriminate Ho;
      (split; [reflexivity|exact Hfase]). }
  apply Forall_lookup. intros i fu Hi.
  destruct (est fu) as [|res| |] eqn:Hest; [exfalso..|reflexivity].
  - destruct (generar_fractal_definido (objeto s) cr ci (fragmento fu)
                (inv_c_real _ _ _ _ Hinv) (inv_c_imag _ _ _ _ Hinv)) as [res Hres].
    apply (Hno (Terminar i)). unfold paso, terminar. cbn. rewrite Hi. cbn.
    rewrite Hest, Hres. discriminate.
  - apply (Hno (Fusionar i)). unfold paso, fusionar_en_hilo. cbn. rewrite Hi. cbn.
    rewrite Hest. rewrite Forall_forall in Hcb.
    rewrite (Hcb fu (list_elem_of_lookup_2 _ _ _ Hi)). discriminate.
  - apply (Hno (Notificar i)). unfold paso, notificar_en_hilo. cbn. rewrite Hi. cbn.
    rewrite Hest, Hlibre. discriminate.
Qed.


Lemma sum_list_insert (f : futuro -> nat) (l : list futuro) : forall i fu fu',
  l !! i = Some fu ->
  (sum_list_with f (<[i := fu']> l) + f fu = sum_list_with f l + f fu')%nat.
Proof.
  induction l as [|x l IH]; intros i fu fu' Hi; [discriminate Hi|].
  destruct i as [|i]; cbn in *.
  - injection Hi as ->. lia.
  - specialize (IH i fu fu' Hi).
    rewrite <- !Nat.add_assoc. f_equal. exact IH.
Qed.




End PropiedadesFin.

(** ** Parallel and sequential runs produce the same grid *)

Section Equivalencia.
Context {ar : AritmeticaCompleja}.

Lemma todos_fusionados_inv s :
  todos_fusionados s = true ->
  pendientes (orquestador s) = [] /\ Forall (fun fu => fusionado fu = true) (futures s).
Proof.
  unfold todos_fusionados. intros Htf.
  destruct (orquestador s); try discriminate;
    (split; [reflexivity|]); apply Forall_forall; intros fu Hfu;
    rewrite forallb_forall in Htf; apply Htf, list_elem_of_In, Hfu.
Qed.

(** Once the four fragments are merged the grid is the one evaluated
    directly. *)
Lemma salida_todos_fusionados self cr ci t0 s :
  bien_formado self ->
  alcanzable self cr ci t0 s ->
  todos_fusionados s = true ->
  salida (objeto s) = matriz_julia self (Complejo cr ci).
Proof.
  intros Hbf Halc Htf.
  pose proof (invariante_alcanzable self cr ci Hbf t0 s Halc) as Hinv.
  destruct (todos_fusionados_inv s Htf) as [Hpend Hfus].
  destruct (inv_forma _ _ _ _ Hinv) as [Hlen _].
  destruct (forma_matriz_julia self (Complejo cr ci)) as [Hlen' _].
  destruct Hbf as (Hh0 & _).
  apply list_eq. intros y.
  destruct (decide (Z.of_nat y < alto self)) as [Hy|Hy].
  - destruct (proj1 (fragmentos_union self (Z.of_nat y) Hh0) ltac:(lia))
      as (fr & Hfr & Hyfr).
    rewrite <- (inv_fragmentos _ _ _ _ Hinv), Hpend, app_nil_r in Hfr.
    apply list_elem_of_fmap in Hfr as (fu & -> & Hfu).
    pose proof (inv_futuros _ _ _ _ Hinv) as Hfut.
    rewrite Forall_forall in Hfut, Hfus.
    apply (Hfut fu Hfu); [apply Hfus, Hfu | exact Hyfr].
  - rewrite !lookup_ge_None_2 by lia. reflexivity.
Qed.

Lemma lookup_celda self c (x y : nat) :
  Z.of_nat x < ancho self -> Z.of_nat y < alto self ->
  matriz_julia self c !! y ≫= (.!! x)
  = Some (celda self c (Z.of_nat x) (Z.of_nat y)).
Proof.
  intros Hx Hy. rewrite lookup_matriz_julia by exact Hy. cbn.
  apply lookup_fila_julia. exact Hx.
Qed.


End Equivalencia.

Lemma bien_formado_nuevo an al mi :
  0 <= al -> 0 <= an -> bien_formado (objeto_nuevo an al mi).
Proof. intros Hh Hw. repeat split; cbn; try assumption; apply forma_zeros. Qed.


Lemma bien_formado_secuencial {ar : AritmeticaCompleja} self cr ci :
  bien_formado self -> bien_formado (generar_fractal_secuencial self cr ci).
Proof.
  intros Hbf. pose proof (generar_fractal_secuencial_directo self cr ci Hbf) as Hsal.
  destruct Hbf as (Hh & Hw & _). unfold bien_formado. rewrite Hsal.
  split; [exact Hh|]. split; [exact Hw|].
  apply (forma_matriz_julia self (Complejo cr ci)).
Qed.



Example corrida_completa_4x4 :
  (salida ∘ objeto) <$> ejecutar (ar := aritmetica_ref) traza_completa
                          (iniciar_paralelo objeto_4x4 (-0.75) 0.125 0)
  = Some [[0; 1; 1; 1]; [0; 1; 3; 4]; [1; 10; 10; 10]; [0; 2; 3; 3]].
Proof. vm_compute. reflexivity. Qed.

(** ** The cell (2, 2) of the 4 x 4 grid *)

(** C6, as the claim states it, fails: on the 4 x 4 grid the cell
    [(x=2, y=2)] is not mapped to [0+0j]; its real part is
    [2 * (3 / 4) - 2 = -0.5]. *)
Lemma coordenada_2_2_no_es_origen :
  coordenada objeto_4x4 2 2 <> Complejo 0 0.
Proof.
  intros Heq. apply (f_equal (fun z => (real z =? 0)%float)) in Heq.
  vm_compute in Heq. discriminate Heq.
Qed.

(** C6, amended: on the 4 x 4 grid the cell [(x=2, y=2)] is mapped to
    [-0.5+0j], and with [c = 0+0j] and ten iterations at most the count in
    that cell is the same whether computed by the sequential run or by the
    parallel run: the kernel at [-0.5+0j].  In the parallel run it is
    computed by the task of the third fragment, rows [2, 3), and stands in
    the shared grid once the fragments are merged. *)
Theorem celda_2_2 {ar : AritmeticaCompleja} self :
  recien_creado 4 4 10 self ->
  let cuenta := fractal_julia self (Complejo 0 0) (Complejo (-0.5) 0) in
  coordenada self 2 2 = Complejo (-0.5) 0
  /\ salida (generar_fractal_secuencial self 0 0) !! 2%nat ≫= (.!! 2%nat)
     = Some cuenta
  /\ fragmentos self !! 2%nat = Some (2, 3)
  /\ (exists bloque,
        generar_fractal (con_c 0 0 self) (2, 3) = Some bloque
        /\ bloque !! 0%nat ≫= (.!! 2%nat) = Some cuenta)
  /\ (forall t0 s,
        alcanzable self 0 0 t0 s -> todos_fusionados s = true ->
        salida (objeto s) !! 2%nat ≫= (.!! 2%nat) = Some cuenta).
Proof.
  intros Hnew cuenta. unfold recien_creado in Hnew.
  rewrite init_exito in Hnew by lia. injection Hnew as <-.
  assert (bien_formado (objeto_nuevo 4 4 10)) as Hbf
    by (apply bien_formado_nuevo; lia).
  assert (coordenada (objeto_nuevo 4 4 10) 2 2 = Complejo (-0.5) 0) as Hco
    by (vm_compute; reflexivity).
  assert (matriz_julia (objeto_nuevo 4 4 10) (Complejo 0 0) !! 2%nat ≫= (.!! 2%nat)
          = Some cuenta) as Hdir.
  { rewrite (lookup_celda _ _ 2 2) by (cbn; lia).
    unfold celda. change (Z.of_nat 2) with 2. rewrite Hco. reflexivity. }
  split; [exact Hco|]. split.
  { rewrite (generar_fractal_secuencial_directo _ 0 0 Hbf). exact Hdir. }
  split; [reflexivity|]. split.
  - eexists. split.
    + apply (generar_fractal_directo _ 0 0); [cbn; lia|reflexivity|reflexivity].
    + change (seqZ 2 (3 - 2)) with [2]. cbn [fmap list_fmap lookup list_lookup mbind option_bind].
      rewrite (lookup_fila_julia _ _ 2 2) by (cbn; lia).
      unfold celda. change (Z.of_nat 2) with 2.
      change (coordenada (con_c 0 0 (objeto_nuevo 4 4 10)) 2 2)
        with (coordenada (objeto_nuevo 4 4 10) 2 2).
      rewrite Hco. reflexivity.
  - intros t0 s Halc Htf.
    rewrite (salida_todos_fusionados _ 0 0 t0 s Hbf Halc Htf). exact Hdir.
Qed.

Lemma celda_2_2_testigo :
  salida (generar_fractal_secuencial (ar := aritmetica_ref) objeto_4x4 0 0)
    !! 2%nat ≫= (.!! 2%nat)
  = Some 10.
Proof.
  rewrite (proj1 (proj2 (celda_2_2 (ar := aritmetica_ref) objeto_4x4 eq_refl))).
  vm_compute. reflexivity.
Defined.

(** ** The grid when the parallel run returns *)

(** C1 on the code: the shared grid is not the sequential grid when
    [generar_fractal_paralelo] returns.  On the 4 x 4 grid with
    [c = -0.75+0.125j], along [traza_prematura] the call has returned
    (lines 64-68 have run, [imagen] is the grid that line 65 plots) when
    only the first fragment has been merged: rows 1 to 3 of the shared
    grid are still zero, and cell [(x, y) = (2, 1)] holds 0 where the
    sequential run for the same constant leaves 3. *)
Theorem paralelo_retorna_incompleto :
  exists s t imagen,
    ejecutar (ar := aritmetica_ref) traza_prematura
      (iniciar_paralelo objeto_4x4 (-0.75) 0.125 0) = Some s
    /\ orquestador s = Retornado t imagen
    /\ salida (objeto s)
       = [[0; 1; 1; 1]; [0; 0; 0; 0]; [0; 0; 0; 0]; [0; 0; 0; 0]]
    /\ imagen = salida (objeto s)
    /\ salida (generar_fractal_secuencial (ar := aritmetica_ref)
                 objeto_4x4 (-0.75) 0.125)
       = [[0; 1; 1; 1]; [0; 1; 3; 4]; [1; 10; 10; 10]; [0; 2; 3; 3]]
    /\ salida (objeto s) !! 1%nat ≫= (.!! 2%nat) = Some 0
    /\ salida (generar_fractal_secuencial (ar := aritmetica_ref)
                 objeto_4x4 (-0.75) 0.125) !! 1%nat ≫= (.!! 2%nat)
       = Some 3.
Proof.
  eexists _, _, _. split; [vm_compute; reflexivity|].
  split; [reflexivity|]. split; [reflexivity|]. split; [reflexivity|].
  split; [vm_compute; reflexivity|].
  split; [reflexivity|]. vm_compute. reflexivity.
Qed.

(** ** The wait of the orchestrator *)

(** C2 on the code: the single [condicion.wait()] of line 62 neither waits
    for all fragments nor is safe against early completions.  On the
    4 x 4 grid with [c = -0.75+0.125j]:
    - along [traza_prematura] the orchestrator has returned while three
      futures are still running, and the grid it hands to
      [graficar_fractal] differs from the finished grid;
    - along [traza_bloqueo] every callback has run, the orchestrator is
      blocked in [wait()], and no event is enabled any more. *)
Theorem espera_no_es_barrera :
  (exists s imagen t,
     ejecutar (ar := aritmetica_ref) traza_prematura
       (iniciar_paralelo objeto_4x4 (-0.75) 0.125 0) = Some s
     /\ orquestador s = Retornado t imagen
     /\ est <$> futures s = [Completo; Corriendo; Corriendo; Corriendo]
     /\ todos_fusionados s = false
     /\ imagen <> salida (generar_fractal_secuencial (ar := aritmetica_ref)
                           objeto_4x4 (-0.75) 0.125))
  /\ (exists s,
        ejecutar (ar := aritmetica_ref) traza_bloqueo
          (iniciar_paralelo objeto_4x4 (-0.75) 0.125 0) = Some s
        /\ orquestador s = Esperando
        /\ est <$> futures s = [Completo; Completo; Completo; Completo]
        /\ forall dt e, paso (ar := aritmetica_ref) s dt e = None).
Proof.
  split.
  - eexists _, _, _. split; [vm_compute; reflexivity|].
    split; [reflexivity|]. split; [reflexivity|]. split; [reflexivity|].
    vm_compute. intros Heq. discriminate Heq.
  - eexists. split; [vm_compute; reflexivity|].
    split; [reflexivity|]. split; [reflexivity|].
    intros dt e. unfold paso. destruct (Qle_bool 0 dt); [|reflexivity].
    destruct e as [| | | | |i|i|i]; try reflexivity;
      destruct i as [|[|[|[|i]]]]; reflexivity.
Qed.

(** ** The communication-time accumulator *)


Lemma suma_no_negativa (l : list Q) :
  Forall (fun d => (0 <= d)%Q) l -> (0 <= suma l)%Q.
Proof.
  unfold suma. induction 1 as [|d l Hd _ IH]; cbn [foldr]; lra.
Qed.

Lemma fusionar_tiempo self fu res ahora t :
  tiempo_comunicacion_total self = Some t ->
  tiempo_comunicacion_total (fusionar self fu res ahora)
  = Some (t + (ahora - f_start_time fu))%Q.
Proof.
  intros Ht. unfold fusionar. destruct (fragmento fu) as [a b]. cbn.
  rewrite Ht. reflexivity.
Qed.

Section PropiedadesTiempo.
Context {ar : AritmeticaCompleja}.

Lemma invariante_tiempo_inicial self cr ci t0 a0 :
  tiempo_comunicacion_total self = Some a0 ->
  invariante_tiempo a0 (iniciar_paralelo self cr ci t0).
Proof.
  intros Ha. split; cbn.
  - exists a0. split; [exact Ha|]. unfold suma. cbn [foldr]. lra.
  - apply Forall_nil_2.
  - apply Forall_nil_2.
Qed.

Lemma sellos_avanzan (l : list futuro) (r dt : Q) :
  (0 <= dt)%Q ->
  Forall (fun fu => (f_start_time fu <= r)%Q) l ->
  Forall (fun fu => (f_start_time fu <= r + dt)%Q) l.
Proof.
  intros Hdt Hl. eapply Forall_impl; [exact Hl|]. cbn. intros fu Hfu. lra.
Qed.

Lemma invariante_tiempo_con_fase a0 s o dt :
  (0 <= dt)%Q -> invariante_tiempo a0 s ->
  invariante_tiempo a0 (con_fase o s (reloj s + dt)%Q).
Proof.
  intros Hdt [Htot Hsel Hcom]. split; cbn; try assumption.
  apply sellos_avanzan; assumption.
Qed.

Lemma invariante_tiempo_con_futuro a0 s i fu fu' o dt :
  (0 <= dt)%Q -> invariante_tiempo a0 s ->
  futures s !! i = Some fu -> f_start_time fu' = f_start_time fu ->
  invariante_tiempo a0
    (con_futuro i fu' s o (objeto s) (comunicaciones s) (reloj s + dt)%Q).
Proof.
  intros Hdt [Htot Hsel Hcom] Hi Hst. split; cbn; try assumption.
  apply sellos_avanzan; [exact Hdt|]. apply Forall_insert; [exact Hsel|].
  rewrite Hst. rewrite Forall_forall in Hsel.
  apply Hsel. eapply list_elem_of_lookup_2, Hi.
Qed.

Lemma invariante_tiempo_fusion a0 s i fu fu' res o dt :
  (0 <= dt)%Q -> invariante_tiempo a0 s ->
  futures s !! i = Some fu -> f_start_time fu' = f_start_time fu ->
  invariante_tiempo a0
    (con_futuro i fu' s o (fusionar (objeto s) fu res (reloj s + dt)%Q)
       ((reloj s + dt - f_start_time fu)%Q :: comunicaciones s)
       (reloj s + dt)%Q).
Proof.
  intros Hdt [(t & Ht & Htot) Hsel Hcom] Hi Hst.
  assert (f_start_time fu <= reloj s)%Q as Hfu
    by (rewrite Forall_forall in Hsel; eapply Hsel, list_elem_of_lookup_2, Hi).
  split; cbn.
  - eexists. split; [apply fusionar_tiempo; exact Ht|].
    unfold suma in *. cbn [foldr]. lra.
  - apply sellos_avanzan; [exact Hdt|]. apply Forall_insert; [exact Hsel|].
    rewrite Hst. exact Hfu.
  - apply Forall_cons. split; [lra|exact Hcom].
Qed.

Lemma invariante_tiempo_paso a0 s dt e s' :
  invariante_tiempo a0 s -> paso s dt e = Some s' -> invariante_tiempo a0 s'.
Proof.
  intros Hinv Hpaso.
  unfold paso in Hpaso. destruct (Qle_bool 0 dt) eqn:Hdt; cbn [negb] in Hpaso;
    [|discriminate].
  apply Qle_bool_iff in Hdt.
  destruct e.
  - unfold someter in Hpaso.
    destruct (orquestador s) as [[|fr resto]| | | |]; try discriminate.
    injection Hpaso as <-. destruct Hinv as [Htot Hsel Hcom].
    split; cbn; try assumption.
    apply Forall_app. split; [apply sellos_avanzan; assumption|].
    apply Forall_singleton. cbn. apply Qle_refl.
  - unfold entrar in Hpaso.
    destruct (orquestador s) as [[|fr resto]| | | |]; try discriminate.
    injection Hpaso as <-. apply invariante_tiempo_con_fase; assumption.
  - unfold registrar in Hpaso.
    destruct (orquestador s) as [l|k| | |]; try discriminate.
    destruct (futures s !! k) as [fu|] eqn:Hk; [|discriminate]. cbn in Hpaso.
    destruct (est fu) as [|res| |]; try discriminate; injection Hpaso as <-.
    + eapply invariante_tiempo_con_futuro; [assumption|assumption|exact Hk|reflexivity].
    + apply (invariante_tiempo_fusion a0 s k fu (con_est Completo (con_cb fu)) res);
        [assumption|assumption|exact Hk|reflexivity].
  - unfold esperar in Hpaso.
    destruct (orquestador s) as [l|k| | |]; try discriminate.
    destruct (futures s !! k); [discriminate|].
    injection Hpaso as <-. apply invariante_tiempo_con_fase; assumption.
  - unfold despertar in Hpaso.
    destruct (orquestador s); try discriminate.
    injection Hpaso as <-. apply invariante_tiempo_con_fase; assumption.
  - unfold terminar in Hpaso.
    destruct (futures s !! i) as [fu|] eqn:Hi; [|discriminate]. cbn in Hpaso.
    destruct (est fu); try discriminate.
    destruct (generar_fractal (objeto s) (fragmento fu)); [|discriminate].
    injection Hpaso as <-.
    eapply invariante_tiempo_con_futuro; [assumption|assumption|exact Hi|reflexivity].
  - unfold fusionar_en_hilo in Hpaso.
    destruct (futures s !! i) as [fu|] eqn:Hi; [|discriminate]. cbn in Hpaso.
    destruct (est fu) as [|res| |]; try discriminate.
    destruct (con_callback fu); [|discriminate].
    injection Hpaso as <-.
    eapply invariante_tiempo_fusion; [assumption|assumption|exact Hi|reflexivity].
  - unfold notificar_en_hilo in Hpaso.
    destruct (futures s !! i) as [fu|] eqn:Hi; [|discriminate]. cbn in Hpaso.
    destruct (est fu); try discriminate.
    destruct (condicion_libre (orquestador s)); [|discriminate].
    injection Hpaso as <-.
    eapply invariante_tiempo_con_futuro; [assumption|assumption|exact Hi|reflexivity].
Qed.

Lemma invariante_tiempo_ejecutar a0 traza : forall s s',
  invariante_tiempo a0 s -> ejecutar traza s = Some s' -> invariante_tiempo a0 s'.
Proof.
  induction traza as [|[dt e] traza IH]; intros s s' Hinv Hej; cbn in Hej.
  - injection Hej as <-. exact Hinv.
  - destruct (paso s dt e) as [s1|] eqn:Hp; [|discriminate]. cbn in Hej.
    apply (IH s1 s'); [|exact Hej]. eapply invariante_tiempo_paso; eassumption.
Qed.

(** C4, amended: [generar_fractal_paralelo] does not reset the
    accumulator.  At every point of a parallel run, and so when the run
    has returned, [tiempo_comunicacion_total] is its value before the run
    plus the communication times of the merges of this run; it is the
    sum of this run alone when that value was 0, as it is on the first run
    after construction. *)
Theorem acumulador_sin_reinicio self cr ci t0 a0 s :
  tiempo_comunicacion_total self = Some a0 ->
  alcanzable self cr ci t0 s ->
  acumulado (objeto s) (a0 + suma (comunicaciones s))%Q
  /\ ((a0 == 0)%Q -> acumulado (objeto s) (suma (comunicaciones s))).
Proof.
  intros Ha [traza Hej].
  destruct (invariante_tiempo_ejecutar a0 traza _ s
              (invariante_tiempo_inicial self cr ci t0 a0 Ha) Hej)
    as [(t & Ht & Htot) _ _].
  split.
  - exists t. split; assumption.
  - intros Ha0. exists t. split; [exact Ht|]. lra.
Qed.

End PropiedadesTiempo.

Lemma acumulador_sin_reinicio_testigo :
  exists s,
    ejecutar (ar := aritmetica_ref) traza_completa
      (iniciar_paralelo (con_tiempo (Some 7%Q) objeto_4x4) (-0.75) 0.125 0)
    = Some s
    /\ acumulado (objeto s) (7 + suma (comunicaciones s))%Q.
Proof.
  destruct (ejecutar (ar := aritmetica_ref) traza_completa
              (iniciar_paralelo (con_tiempo (Some 7%Q) objeto_4x4) (-0.75) 0.125 0))
    as [s|] eqn:Hej; [|vm_compute in Hej; discriminate Hej].
  exists s. split; [reflexivity|].
  exact (proj1 (acumulador_sin_reinicio (ar := aritmetica_ref)
                  (con_tiempo (Some 7%Q) objeto_4x4) (-0.75) 0.125 0 7 s
                  eq_refl (ex_intro _ traza_completa Hej))).
Defined.

(** C4, as the claim states it, fails: run [traza_completa] twice on a new
    4 x 4 object.  When the second run has returned the accumulator holds
    112, the communication times of both runs, while those of the second
    run alone add up to 56. *)
Lemma acumulador_arrastra_corrida_anterior :
  exists s1 s2,
    ejecutar (ar := aritmetica_ref) traza_completa
      (iniciar_paralelo objeto_4x4 (-0.75) 0.125 0) = Some s1
    /\ retornado s1 = true
    /\ ejecutar (ar := aritmetica_ref) traza_completa
         (iniciar_paralelo (objeto s1) (-0.75) 0.125 (reloj s1)) = Some s2
    /\ retornado s2 = true
    /\ tiempo_comunicacion_total (objeto s2) = Some 112%Q
    /\ suma (comunicaciones s2) = 56%Q
    /\ ~ acumulado (objeto s2) (suma (comunicaciones s2)).
Proof.
  eexists _, _. split; [vm_compute; reflexivity|]. split; [reflexivity|].
  split; [vm_compute; reflexivity|]. split; [reflexivity|].
  split; [vm_compute; reflexivity|]. split; [vm_compute; reflexivity|].
  intros (t & Ht & Heq). vm_compute in Ht. injection Ht as <-.
  vm_compute in Heq. discriminate Heq.
Qed.

(** ** The accumulator over the life of an object *)

Section PropiedadesVida.
Context {ar : AritmeticaCompleja}.







End PropiedadesVida.


Example vida_dos_corridas :
  (m_objeto <$> vida (ar := aritmetica_ref)
     [Secuencial (-0.75) 0.125 3; Paralelo (-0.75) 0.125 traza_completa;
      Paralelo 0 0 traza_completa]
     (nacer objeto_4x4 0)) ≫= tiempo_comunicacion_total
  = Some 112%Q.
Proof. vm_compute. reflexivity. Qed.

(** * Further properties *)

(** ** Balance of the planner *)

(** X1: for every height [alto >= 0] the rows of the four fragments add up
    to [alto]; every fragment has at least [alto // 4] rows and at most
    three more, and only the last one can have more: it has
    [alto // 4 + alto % 4]. *)
Theorem fragmentos_equilibrio self :
  0 <= alto self ->
  let t := alto self / 4 in
  foldr (fun fr n => filas_de fr + n) 0 (fragmentos self) = alto self
  /\ Forall (fun fr => t <= filas_de fr <= t + 3) (fragmentos self)
  /\ (forall i fr, (i < 3)%nat -> fragmentos self !! i = Some fr -> filas_de fr = t)
  /\ (forall fr, last (fragmentos self) = Some fr ->
                 filas_de fr = t + alto self mod 4).
Proof.
  intros Hh t. pose proof (tamano_cota _ Hh) as Ht.
  pose proof (Z.div_mod (alto self) 4 ltac:(lia)) as Hdm.
  rewrite fragmentos_lista. fold t. fold t in Ht, Hdm. unfold filas_de.
  split; [cbn; lia|]. split.
  - repeat (apply Forall_cons; split; [cbn; lia|]). apply Forall_nil_2.
  - split.
    + intros i fr Hi. destruct i as [|[|[|i]]]; cbn; intros; simplify_eq; cbn; lia.
    + cbn. intros fr [= <-]. cbn. lia.
Qed.

Lemma fragmentos_equilibrio_testigo :
  0 <= alto objeto_4x10
  /\ foldr (fun fr n => filas_de fr + n) 0 (fragmentos objeto_4x10) = 10.
Proof.
  assert (0 <= alto objeto_4x10) as Hh by (cbn; lia).
  split; [exact Hh|].
  exact (proj1 (fragmentos_equilibrio objeto_4x10 Hh)).
Defined.

(** ** The cap of the kernel *)

Section PropiedadesTope.
Context {ar : AritmeticaCompleja}.

Lemma mientras_desde (m : Z) (c z : complejo) (n : Z) :
  n <= m -> n <= mientras m c z n <= m.
Proof.
  intros Hn.
  destruct (mientras_cuenta m c _ z n Hn eq_refl) as (k & Hk & Hle & _).
  lia.
Qed.

Lemma mientras_tope (m m' : Z) (c : complejo) (d : nat) :
  forall (z : complejo) (n : Z),
    n <= m -> m <= m' -> Z.to_nat (m - n) = d ->
    mientras m c z n = Z.min m (mientras m' c z n).
Proof.
  induction d as [|d IH]; intros z n Hn Hm Hd.
  - assert (n = m) as -> by lia.
    pose proof (mientras_desde m' c z m Hm) as Hle.
    rewrite (mientras_eq m), Z.ltb_irrefl, andb_false_r. lia.
  - rewrite (mientras_eq m), (mientras_eq m').
    destruct (abs_c z <=? 2)%float; cbn [andb]; [|lia].
    destruct (n <? m) eqn:Hlt.
    + apply Z.ltb_lt in Hlt.
      assert ((n <? m') = true) as -> by (apply Z.ltb_lt; lia).
      apply IH; lia.
    + apply Z.ltb_ge in Hlt. lia.
Qed.

(** X2: raising the cap refines only the cells that had reached it.  For
    caps [0 <= m <= m'] the count under [m] is the smaller of [m] and the
    count under [m']: a count below [m] is the same under every larger
    cap. *)
Theorem fractal_julia_tope (self self' : FractalJulia) (c z : complejo) :
  0 <= max_iteraciones self <= max_iteraciones self' ->
  fractal_julia self c z
  = Z.min (max_iteraciones self) (fractal_julia self' c z)
  /\ (fractal_julia self c z < max_iteraciones self ->
      fractal_julia self' c z = fractal_julia self c z).
Proof.
  intros [Hm Hm']. unfold fractal_julia.
  pose proof (mientras_tope (max_iteraciones self) (max_iteraciones self') c _ z 0
                Hm Hm' eq_refl) as Hmin.
  split; [exact Hmin|]. lia.
Qed.


End PropiedadesTope.

Lemma fractal_julia_tope_testigo :
  fractal_julia (ar := aritmetica_ref) objeto_4x4 (Complejo 0 0) (Complejo (-0.5) 0)
  = Z.min 10 (fractal_julia (ar := aritmetica_ref) (objeto_nuevo 4 4 25)
                (Complejo 0 0) (Complejo (-0.5) 0)).
Proof.
  apply (proj1 (fractal_julia_tope (ar := aritmetica_ref) objeto_4x4
                  (objeto_nuevo 4 4 25) (Complejo 0 0) (Complejo (-0.5) 0)
                  ltac:(cbn; lia))).
Defined.

(** ** Blocks and grids *)

Section PropiedadesBloques.
Context {ar : AritmeticaCompleja}.






Lemma matriz_julia_igual self self' c :
  ancho self = ancho self' -> alto self = alto self' ->
  max_iteraciones self = max_iteraciones self' ->
  matriz_julia self c = matriz_julia self' c.
Proof.
  intros Hw Hh Hm. unfold matriz_julia. rewrite Hh.
  apply list_fmap_ext. intros _ y _. apply fila_julia_igual; assumption.
Qed.




End PropiedadesBloques.






(** ** What the protocol does and does not do *)

Section PropiedadesEscritura.
Context {ar : AritmeticaCompleja}.

Lemma fusion_marco self fu res ahora (y : nat) :
  salida (fusionar self fu res ahora) !! y = salida self !! y
  \/ en_fragmento (Z.of_nat y) (fragmento fu).
Proof.
  destruct (fusionar_estatico self fu res ahora) as (_ & _ & _ & _ & _ & Esal).
  rewrite Esal. unfold en_fragmento.
  destruct (decide ((fragmento fu).1 <= Z.of_nat y < (fragmento fu).2)) as [Hin|Hout].
  - right. exact Hin.
  - left. apply lookup_asignar_filas_fuera. exact Hout.
Qed.

Lemma fusion_longitud self fu res ahora :
  length (salida (fusionar self fu res ahora)) = length (salida self).
Proof.
  destruct (fusionar_estatico self fu res ahora) as (_ & _ & _ & _ & _ & Esal).
  rewrite Esal. unfold asignar_filas. apply length_imap.
Qed.

(** X9: the grid is written by merges only, and a merge writes only the
    rows of its fragment.  In a transition of a parallel run the number of
    rows does not change, and a row [y] changes only if the transition
    merges the result of a future whose fragment contains [y]. *)
Theorem paso_escribe_solo_su_fragmento s dt e s' (y : nat) :
  paso s dt e = Some s' ->
  length (salida (objeto s')) = length (salida (objeto s))
  /\ (salida (objeto s') !! y = salida (objeto s) !! y
      \/ exists i fu res,
           futures s !! i = Some fu /\ est fu = Terminado res
           /\ fusiona s e i /\ en_fragmento (Z.of_nat y) (fragmento fu)).
Proof.
  intros Hpaso.
  unfold paso in Hpaso. destruct (Qle_bool 0 dt); cbn [negb] in Hpaso; [|discriminate].
  destruct e.
  - unfold someter in Hpaso.
    destruct (orquestador s) as [[|fr resto]| | | |]; try discriminate.
    injection Hpaso as <-. split; [reflexivity|left; reflexivity].
  - unfold entrar in Hpaso.
    destruct (orquestador s) as [[|fr resto]| | | |]; try discriminate.
    injection Hpaso as <-. split; [reflexivity|left; reflexivity].
  - unfold registrar in Hpaso.
    destruct (orquestador s) as [l|k| | |] eqn:Ho; try discriminate.
    destruct (futures s !! k) as [fu|] eqn:Hk; [|discriminate]. cbn in Hpaso.
    destruct (est fu) as [|res| |] eqn:Hest; try discriminate; injection Hpaso as <-.
    + split; [reflexivity|left; reflexivity].
    + cbn. split; [apply (fusion_longitud (objeto s) fu res)|].
      destruct (fusion_marco (objeto s) fu res (reloj s + dt)%Q y) as [Heq|Hin].
      * left. exact Heq.
      * right. exists k, fu, res. split; [exact Hk|]. split; [exact Hest|].
        split; [right; split; [reflexivity|exact Ho]|exact Hin].
  - unfold esperar in Hpaso.
    destruct (orquestador s) as [l|k| | |]; try discriminate.
    destruct (futures s !! k); [discriminate|].
    injection Hpaso as <-. split; [reflexivity|left; reflexivity].
  - unfold despertar in Hpaso.
    destruct (orquestador s); try discriminate.
    injection Hpaso as <-. split; [reflexivity|left; reflexivity].
  - unfold terminar in Hpaso.
    destruct (futures s !! i) as [fu|]; [|discriminate]. cbn in Hpaso.
    destruct (est fu); try discriminate.
    destruct (generar_fractal (objeto s) (fragmento fu)); [|discriminate].
    injection Hpaso as <-. split; [reflexivity|left; reflexivity].
  - unfold fusionar_en_hilo in Hpaso.
    destruct (futures s !! i) as [fu|] eqn:Hi; [|discriminate]. cbn in Hpaso.
    destruct (est fu) as [|res| |] eqn:Hest; try discriminate.
    destruct (con_callback fu); [|discriminate].
    injection Hpaso as <-. cbn. split; [apply fusion_longitud|].
    destruct (fusion_marco (objeto s) fu res (reloj s + dt)%Q y) as [Heq|Hin].
    + left. exact Heq.
    + right. exists i, fu, res. split; [exact Hi|]. split; [exact Hest|].
      split; [left; reflexivity|exact Hin].
  - unfold notificar_en_hilo in Hpaso.
    destruct (futures s !! i) as [fu|]; [|discriminate]. cbn in Hpaso.
    destruct (est fu); try discriminate.
    destruct (condicion_libre (orquestador s)); [|discriminate].
    injection Hpaso as <-. split; [reflexivity|left; reflexivity].
Qed.

End PropiedadesEscritura.

Lemma paso_escribe_solo_su_fragmento_testigo :
  exists s s',
    ejecutar (ar := aritmetica_ref) (take 11 traza_prematura)
      (iniciar_paralelo objeto_4x4 (-0.75) 0.125 0) = Some s
    /\ paso (ar := aritmetica_ref) s 1 (Fusionar 0) = Some s'
    /\ salida (objeto s') !! 3%nat = salida (objeto s) !! 3%nat.
Proof.
  destruct (ejecutar (ar := aritmetica_ref) (take 11 traza_prematura)
              (iniciar_paralelo objeto_4x4 (-0.75) 0.125 0)) as [s|] eqn:Hej;
    [|vm_compute in Hej; discriminate Hej].
  destruct (paso (ar := aritmetica_ref) s 1 (Fusionar 0)) as [s'|] eqn:Hp;
    [|vm_compute in Hej; injection Hej as <-; vm_compute in Hp; discriminate Hp].
  exists s, s'. split; [reflexivity|]. split; [exact Hp|].
  destruct (proj2 (paso_escribe_solo_su_fragmento (ar := aritmetica_ref)
                     s 1 (Fusionar 0) s' 3 Hp))
    as [Heq|(i & fu & res & Hi & _ & [Hf|[Hf _]] & Hin)].
  - exact Heq.
  - exfalso. injection Hf as <-.
    vm_compute in Hej. injection Hej as <-. vm_compute in Hi. injection Hi as <-.
    unfold en_fragmento in Hin. cbn in Hin. lia.
  - discriminate Hf.
Defined.

Section PropiedadesFusiones.
Context {ar : AritmeticaCompleja}.

Lemma paso_cuenta_fusiones s dt e s' :
  paso s dt e = Some s' ->
  (fusiones s' + length (comunicaciones s)
   = fusiones s + length (comunicaciones s'))%nat.
Proof.
  intros Hpaso.
  unfold paso in Hpaso. destruct (Qle_bool 0 dt); cbn [negb] in Hpaso; [|discriminate].
  unfold fusiones.
  destruct e.
  - unfold someter in Hpaso.
    destruct (orquestador s) as [[|fr resto]| | | |]; try discriminate.
    injection Hpaso as <-. cbn. rewrite sum_list_with_app. cbn. lia.
  - unfold entrar in Hpaso.
    destruct (orquestador s) as [[|fr resto]| | | |]; try discriminate.
    injection Hpaso as <-. cbn. lia.
  - unfold registrar in Hpaso.
    destruct (orquestador s) as [l|k| | |]; try discriminate.
    destruct (futures s !! k) as [fu|] eqn:Hk; [|discriminate]. cbn in Hpaso.
    destruct (est fu) as [|res| |] eqn:Hest; try discriminate;
      injection Hpaso as <-; cbn.
    + pose proof (sum_list_insert fusion_hecha _ k fu (con_cb fu) Hk) as Hs.
      unfold fusion_hecha in Hs at 2 4. unfold fusionado in Hs. cbn in Hs. rewrite Hest in Hs. lia.
    + pose proof (sum_list_insert fusion_hecha _ k fu (con_est Completo (con_cb fu)) Hk) as Hs.
      unfold fusion_hecha in Hs at 2 4. unfold fusionado in Hs. cbn in Hs. rewrite Hest in Hs. lia.
  - unfold esperar in Hpaso.
    destruct (orquestador s) as [l|k| | |]; try discriminate.
    destruct (futures s !! k); [discriminate|].
    injection Hpaso as <-. cbn. lia.
  - unfold despertar in Hpaso.
    destruct (orquestador s); try discriminate.
    injection Hpaso as <-. cbn. lia.
  - unfold terminar in Hpaso.
    destruct (futures s !! i) as [fu|] eqn:Hi; [|discriminate]. cbn in Hpaso.
    destruct (est fu) eqn:Hest; try discriminate.
    destruct (generar_fractal (objeto s) (fragmento fu)) as [res|]; [|discriminate].
    injection Hpaso as <-. cbn.
    pose proof (sum_list_insert fusion_hecha _ i fu (con_est (Terminado res) fu) Hi) as Hs.
    unfold fusion_hecha in Hs at 2 4. unfold fusionado in Hs. cbn in Hs. rewrite Hest in Hs. lia.
  - unfold fusionar_en_hilo in Hpaso.
    destruct (futures s !! i) as [fu|] eqn:Hi; [|discriminate]. cbn in Hpaso.
    destruct (est fu) as [|res| |] eqn:Hest; try discriminate.
    destruct (con_callback fu); [|discriminate].
    injection Hpaso as <-. cbn.
    pose proof (sum_list_insert fusion_hecha _ i fu (con_est Fusionado fu) Hi) as Hs.
    unfold fusion_hecha in Hs at 2 4. unfold fusionado in Hs. cbn in Hs. rewrite Hest in Hs. lia.
  - unfold notificar_en_hilo in Hpaso.
    destruct (futures s !! i) as [fu|] eqn:Hi; [|discriminate]. cbn in Hpaso.
    destruct (est fu) eqn:Hest; try discriminate.
    destruct (condicion_libre (orquestador s)); [|discriminate].
    injection Hpaso as <-. cbn.
    pose proof (sum_list_insert fusion_hecha _ i fu (con_est Completo fu) Hi) as Hs.
    unfold fusion_hecha in Hs at 2 4. unfold fusionado in Hs. cbn in Hs. rewrite Hest in Hs. lia.
Qed.

Lemma ejecutar_cuenta_fusiones traza : forall s s',
  ejecutar traza s = Some s' ->
  (fusiones s' + length (comunicaciones s)
   = fusiones s + length (comunicaciones s'))%nat.
Proof.
  induction traza as [|[dt e] traza IH]; intros s s' Hej; cbn in Hej.
  - injection Hej as <-. reflexivity.
  - destruct (paso s dt e) as [s1|] eqn:Hp; [|discriminate]. cbn in Hej.
    pose proof (paso_cuenta_fusiones s dt e s1 Hp).
    specialize (IH s1 s' Hej). lia.
Qed.





Lemma paso_despierto s dt e s' :
  paso s dt e = Some s' ->
  despierto (orquestador s')
  = despierto (orquestador s) || es_notificacion e.
Proof.
  intros Hpaso.
  unfold paso in Hpaso. destruct (Qle_bool 0 dt); cbn [negb] in Hpaso; [|discriminate].
  destruct e.
  - unfold someter in Hpaso.
    destruct (orquestador s) as [[|fr resto]| | | |]; try discriminate.
    injection Hpaso as <-. reflexivity.
  - unfold entrar in Hpaso.
    destruct (orquestador s) as [[|fr resto]| | | |]; try discriminate.
    injection Hpaso as <-. reflexivity.
  - unfold registrar in Hpaso.
    destruct (orquestador s) as [l|k| | |]; try discriminate.
    destruct (futures s !! k) as [fu|]; [|discriminate]. cbn in Hpaso.
    destruct (est fu); try discriminate; injection Hpaso as <-; reflexivity.
  - unfold esperar in Hpaso.
    destruct (orquestador s) as [l|k| | |]; try discriminate.
    destruct (futures s !! k); [discriminate|].
    injection Hpaso as <-. reflexivity.
  - unfold despertar in Hpaso.
    destruct (orquestador s); try discriminate.
    injection Hpaso as <-. reflexivity.
  - unfold terminar in Hpaso.
    destruct (futures s !! i) as [fu|]; [|discriminate]. cbn in Hpaso.
    destruct (est fu); try discriminate.
    destruct (generar_fractal (objeto s) (fragmento fu)); [|discriminate].
    injection Hpaso as <-. cbn. rewrite orb_false_r. reflexivity.
  - unfold fusionar_en_hilo in Hpaso.
    destruct (futures s !! i) as [fu|]; [|discriminate]. cbn in Hpaso.
    destruct (est fu); try discriminate.
    destruct (con_callback fu); [|discriminate].
    injection Hpaso as <-. cbn. rewrite orb_false_r. reflexivity.
  - unfold notificar_en_hilo in Hpaso.
    destruct (futures s !! i) as [fu|]; [|discriminate]. cbn in Hpaso.
    destruct (est fu); try discriminate.
    destruct (condicion_libre (orquestador s)) eqn:Hlibre; [|discriminate].
    injection Hpaso as <-. cbn.
    destruct (orquestador s); try discriminate Hlibre; reflexivity.
Qed.

Lemma ejecutar_despierto traza : forall s s',
  ejecutar traza s = Some s' ->
  despierto (orquestador s')
  = despierto (orquestador s) || existsb (fun p => es_notificacion p.2) traza.
Proof.
  induction traza as [|[dt e] traza IH]; intros s s' Hej; cbn in Hej.
  - injection Hej as <-. cbn. rewrite orb_false_r. reflexivity.
  - destruct (paso s dt e) as [s1|] eqn:Hp; [|discriminate]. cbn in Hej.
    rewrite (IH s1 s' Hej), (paso_despierto s dt e s1 Hp). cbn.
    rewrite orb_assoc. reflexivity.
Qed.

(** X11: the orchestrator leaves the wait exactly when a worker has run
    the [notify()] of a stored callback.  After any schedule it has been
    woken if and only if the schedule contains such a notification; so a
    run that is over has returned if some callback was run by a worker,
    and is blocked in [wait()] for ever if all four callbacks ran on the
    orchestrator while it added them. *)
Theorem despierta_solo_por_trabajador self cr ci t0 traza s :
  bien_formado self ->
  ejecutar traza (iniciar_paralelo self cr ci t0) = Some s ->
  despierto (orquestador s) = existsb (fun p => es_notificacion p.2) traza
  /\ (terminada s ->
      (retornado s = true
       <-> existsb (fun p => es_notificacion p.2) traza = true)
      /\ (orquestador s = Esperando
          <-> existsb (fun p => es_notificacion p.2) traza = false)).
Proof.
  intros Hbf Hej.
  pose proof (ejecutar_despierto traza _ s Hej) as Hd. cbn in Hd.
  split; [exact Hd|]. intros Hfin.
  destruct (terminada_todo_completo self cr ci t0 s Hbf
              (ex_intro _ traza Hej) Hfin) as [Ho _].
  rewrite <- Hd. unfold retornado in *.
  destruct (orquestador s); destruct Ho as [Ho|Ho]; try discriminate Ho; cbn;
    (split; split; intros Hx; (reflexivity || discriminate Hx)).
Qed.

Lemma completo_persiste s dt e s' j fu :
  paso s dt e = Some s' ->
  futures s !! j = Some fu -> est fu = Completo ->
  exists fu', futures s' !! j = Some fu' /\ est fu' = Completo.
Proof.
  intros Hpaso Hj Hest.
  unfold paso in Hpaso. destruct (Qle_bool 0 dt); cbn [negb] in Hpaso; [|discriminate].
  assert (forall i fu0 fu1,
            futures s !! i = Some fu0 -> est fu0 <> Completo ->
            exists fu', <[i := fu1]> (futures s) !! j = Some fu'
                        /\ est fu' = Completo) as Hins.
  { intros i fu0 fu1 Hi Hne. destruct (decide (i = j)) as [->|Hij].
    - rewrite Hj in Hi. injection Hi as <-. contradiction.
    - exists fu. rewrite list_lookup_insert_ne by exact Hij. split; assumption. }
  destruct e.
  - unfold someter in Hpaso.
    destruct (orquestador s) as [[|fr resto]| | | |]; try discriminate.
    injection Hpaso as <-. cbn. exists fu.
    rewrite lookup_app_l by (eapply lookup_lt_Some, Hj). split; assumption.
  - unfold entrar in Hpaso.
    destruct (orquestador s) as [[|fr resto]| | | |]; try discriminate.
    injection Hpaso as <-. exists fu. split; assumption.
  - unfold registrar in Hpaso.
    destruct (orquestador s) as [l|k| | |]; try discriminate.
    destruct (futures s !! k) as [fu0|] eqn:Hk; [|discriminate]. cbn in Hpaso.
    destruct (est fu0) eqn:Hest0; try discriminate; injection Hpaso as <-; cbn;
      apply (Hins k fu0 _ Hk); rewrite Hest0; discriminate.
  - unfold esperar in Hpaso.
    destruct (orquestador s) as [l|k| | |]; try discriminate.
    destruct (futures s !! k); [discriminate|].
    injection Hpaso as <-. exists fu. split; assumption.
  - unfold despertar in Hpaso.
    destruct (orquestador s); try discriminate.
    injection Hpaso as <-. exists fu. split; assumption.
  - unfold terminar in Hpaso.
    destruct (futures s !! i) as [fu0|] eqn:Hi; [|discriminate]. cbn in Hpaso.
    destruct (est fu0) eqn:Hest0; try discriminate.
    destruct (generar_fractal (objeto s) (fragmento fu0)); [|discriminate].
    injection Hpaso as <-. cbn. apply (Hins i fu0 _ Hi). rewrite Hest0. discriminate.
  - unfold fusionar_en_hilo in Hpaso.
    destruct (futures s !! i) as [fu0|] eqn:Hi; [|discriminate]. cbn in Hpaso.
    destruct (est fu0) eqn:Hest0; try discriminate.
    destruct (con_callback fu0); [|discriminate].
    injection Hpaso as <-. cbn. apply (Hins i fu0 _ Hi). rewrite Hest0. discriminate.
  - unfold notificar_en_hilo in Hpaso.
    destruct (futures s !! i) as [fu0|] eqn:Hi; [|discriminate]. cbn in Hpaso.
    destruct (est fu0) eqn:Hest0; try discriminate.
    destruct (condicion_libre (orquestador s)); [|discriminate].
    injection Hpaso as <-. cbn. apply (Hins i fu0 _ Hi). rewrite Hest0. discriminate.
Qed.

Lemma despierto_con_completo traza : forall s s',
  (despierto (orquestador s) = true ->
   exists j fu, futures s !! j = Some fu /\ est fu = Completo) ->
  ejecutar traza s = Some s' ->
  despierto (orquestador s') = true ->
  exists j fu, futures s' !! j = Some fu /\ est fu = Completo.
Proof.
  induction traza as [|[dt e] traza IH]; intros s s' Hs Hej; cbn in Hej.
  - injection Hej as <-. exact Hs.
  - destruct (paso s dt e) as [s1|] eqn:Hp; [|discriminate]. cbn in Hej.
    apply (IH s1 s'); [|exact Hej]. intros Hd1.
    rewrite (paso_despierto s dt e s1 Hp) in Hd1.
    destruct (despierto (orquestador s)) eqn:Hd.
    + destruct (Hs eq_refl) as (j & fu & Hj & Hest).
      destruct (completo_persiste s dt e s1 j fu Hp Hj Hest) as (fu' & Hj' & Hest').
      exists j, fu'. split; assumption.
    + cbn in Hd1. destruct e; try discriminate Hd1.
      unfold paso in Hp. destruct (Qle_bool 0 dt); cbn [negb] in Hp; [|discriminate].
      unfold notificar_en_hilo in Hp.
      destruct (futures s !! i) as [fu0|] eqn:Hi; [|discriminate]. cbn in Hp.
      destruct (est fu0); try discriminate.
      destruct (condicion_libre (orquestador s)); [|discriminate].
      injection Hp as <-. cbn. exists i, (con_est Completo fu0).
      split; [|reflexivity].
      apply list_lookup_insert_eq. eapply lookup_lt_Some, Hi.
Qed.

(** X12: what the return of [generar_fractal_paralelo] does guarantee.
    When the orchestrator has returned, the four fragments have been
    submitted, [add_done_callback] has been called on the four futures, and
    at least one result has been merged by a callback that has returned. *)
Theorem retorno_garantiza self cr ci t0 s :
  bien_formado self -> alcanzable self cr ci t0 s -> retornado s = true ->
  fragmento <$> futures s = fragmentos self
  /\ Forall (fun fu => con_callback fu = true) (futures s)
  /\ (exists j fu, futures s !! j = Some fu /\ est fu = Completo)
  /\ (1 <= length (comunicaciones s))%nat.
Proof.
  intros Hbf Halc Hret.
  pose proof (invariante_alcanzable self cr ci Hbf t0 s Halc) as Hinv.
  pose proof (inv_fragmentos _ _ _ _ Hinv) as Hfr.
  destruct Halc as [traza Hej].
  pose proof (invariante_protocolo_ejecutar traza _ s
                (invariante_protocolo_inicial self cr ci t0) Hej) as [_ Hfase].
  assert (exists j fu, futures s !! j = Some fu /\ est fu = Completo) as Hcomp.
  { apply (despierto_con_completo traza (iniciar_paralelo self cr ci t0) s);
      [discriminate|exact Hej|].
    unfold retornado in Hret. destruct (orquestador s); try discriminate Hret.
    reflexivity. }
  pose proof (ejecutar_cuenta_fusiones traza _ s Hej) as Hc. cbn in Hc.
  unfold retornado in Hret.
  destruct (orquestador s); try discriminate Hret. cbn in Hfr, Hfase.
  rewrite app_nil_r in Hfr.
  split; [exact Hfr|]. split; [exact Hfase|]. split; [exact Hcomp|].
  destruct Hcomp as (j & fu & Hj & Hest).
  assert (1 <= fusiones s)%nat; [|lia].
  unfold fusiones.
  pose proof (sum_list_with_in fu fusion_hecha (futures s)
                (list_elem_of_lookup_2 _ _ _ Hj)) as Hin.
  unfold fusion_hecha in Hin at 1. unfold fusionado in Hin.
  rewrite Hest in Hin. exact Hin.
Qed.


End PropiedadesFusiones.


Lemma despierta_solo_por_trabajador_testigo :
  exists s,
    ejecutar (ar := aritmetica_ref) traza_bloqueo
      (iniciar_paralelo objeto_4x4 (-0.75) 0.125 0) = Some s
    /\ despierto (orquestador s) = false.
Proof.
  destruct (ejecutar (ar := aritmetica_ref) traza_bloqueo
              (iniciar_paralelo objeto_4x4 (-0.75) 0.125 0)) as [s|] eqn:Hej;
    [|vm_compute in Hej; discriminate Hej].
  exists s. split; [reflexivity|].
  rewrite (proj1 (despierta_solo_por_trabajador (ar := aritmetica_ref)
                    objeto_4x4 (-0.75) 0.125 0 traza_bloqueo s
                    (bien_formado_nuevo 4 4 10 ltac:(lia) ltac:(lia)) Hej)).
  reflexivity.
Defined.

Lemma retorno_garantiza_testigo :
  exists s,
    ejecutar (ar := aritmetica_ref) traza_prematura
      (iniciar_paralelo objeto_4x4 (-0.75) 0.125 0) = Some s
    /\ retornado s = true
    /\ (1 <= length (comunicaciones s))%nat.
Proof.
  destruct (ejecutar (ar := aritmetica_ref) traza_prematura
              (iniciar_paralelo objeto_4x4 (-0.75) 0.125 0)) as [s|] eqn:Hej;
    [|vm_compute in Hej; discriminate Hej].
  assert (retornado s = true) as Hret
    by (vm_compute in Hej; injection Hej as <-; reflexivity).
  exists s. split; [reflexivity|]. split; [exact Hret|].
  destruct (retorno_garantiza (ar := aritmetica_ref) objeto_4x4 (-0.75) 0.125 0 s
              (bien_formado_nuevo 4 4 10 ltac:(lia) ltac:(lia))
              (ex_intro _ traza_prematura Hej) Hret) as (_ & _ & _ & Hone).
  exact Hone.
Defined.


(** ** The caller of the two runs *)

Section PropiedadesLlamador.
Context {ar : AritmeticaCompleja}.

Lemma asignar_bloque_mismo self0 cr ci (a b : Z) :
  0 <= a -> b <= alto self0 ->
  asignar_filas a b (fila_julia self0 (Complejo cr ci) <$> seqZ a (b - a))
    (matriz_julia self0 (Complejo cr ci))
  = matriz_julia self0 (Complejo cr ci).
Proof.
  intros Ha Hb. apply list_eq. intros y.
  destruct (decide (a <= Z.of_nat y < b)) as [Hin|Hout].
  - apply fusion_filas; [apply forma_matriz_julia|lia|lia|exact Hin].
  - apply lookup_asignar_filas_fuera. exact Hout.
Qed.

Lemma cuadro_fusion self0 cr ci s i fu res ahora :
  bien_formado self0 -> invariante self0 cr ci s ->
  futures s !! i = Some fu -> est fu = Terminado res ->
  salida (objeto s) = matriz_julia self0 (Complejo cr ci) ->
  salida (fusionar (objeto s) fu res ahora) = matriz_julia self0 (Complejo cr ci).
Proof.
  intros Hbf Hinv Hi Hest Hsal.
  pose proof (fragmento_planificado self0 cr ci Hbf s i fu Hinv Hi) as (Hab & Hb).
  destruct (fusionar_estatico (objeto s) fu res ahora) as (_ & _ & _ & _ & _ & Esal).
  pose proof (inv_futuros _ _ _ _ Hinv) as Hfut. rewrite Forall_forall in Hfut.
  destruct (Hfut fu (list_elem_of_lookup_2 _ _ _ Hi)) as [Hres _].
  rewrite Esal, (Hres res Hest), Hsal. apply asignar_bloque_mismo; lia.
Qed.

Lemma cuadro_paso self0 cr ci s dt e s' :
  bien_formado self0 -> invariante self0 cr ci s ->
  cuadro_completo self0 (Complejo cr ci) s ->
  paso s dt e = Some s' ->
  cuadro_completo self0 (Complejo cr ci) s'.
Proof.
  intros Hbf Hinv [Hsal Himg] Hpaso.
  unfold paso in Hpaso. destruct (Qle_bool 0 dt); cbn [negb] in Hpaso; [|discriminate].
  destruct e.
  - unfold someter in Hpaso.
    destruct (orquestador s) as [[|fr resto]| | | |]; try discriminate.
    injection Hpaso as <-. split; [exact Hsal|]. cbn. intros t img Hx. discriminate Hx.
  - unfold entrar in Hpaso.
    destruct (orquestador s) as [[|fr resto]| | | |]; try discriminate.
    injection Hpaso as <-. split; [exact Hsal|]. cbn. intros t img Hx. discriminate Hx.
  - unfold registrar in Hpaso.
    destruct (orquestador s) as [l|k| | |]; try discriminate.
    destruct (futures s !! k) as [fu|] eqn:Hk; [|discriminate]. cbn in Hpaso.
    destruct (est fu) as [|res| |] eqn:Hest; try discriminate; injection Hpaso as <-.
    + split; [exact Hsal|]. cbn. intros t img Hx. discriminate Hx.
    + split; [|cbn; intros t img Hx; discriminate Hx]. cbn.
      apply (cuadro_fusion self0 cr ci s k fu res); assumption.
  - unfold esperar in Hpaso.
    destruct (orquestador s) as [l|k| | |]; try discriminate.
    destruct (futures s !! k); [discriminate|].
    injection Hpaso as <-. split; [exact Hsal|]. cbn. intros t img Hx. discriminate Hx.
  - unfold despertar in Hpaso.
    destruct (orquestador s); try discriminate.
    injection Hpaso as <-. split; [exact Hsal|]. cbn.
    intros t img [= _ <-]. exact Hsal.
  - unfold terminar in Hpaso.
    destruct (futures s !! i) as [fu|]; [|discriminate]. cbn in Hpaso.
    destruct (est fu); try discriminate.
    destruct (generar_fractal (objeto s) (fragmento fu)); [|discriminate].
    injection Hpaso as <-. split; [exact Hsal|exact Himg].
  - unfold fusionar_en_hilo in Hpaso.
    destruct (futures s !! i) as [fu|] eqn:Hi; [|discriminate]. cbn in Hpaso.
    destruct (est fu) as [|res| |] eqn:Hest; try discriminate.
    destruct (con_callback fu); [|discriminate].
    injection Hpaso as <-. split; [|exact Himg]. cbn.
    apply (cuadro_fusion self0 cr ci s i fu res); assumption.
  - unfold notificar_en_hilo in Hpaso.
    destruct (futures s !! i) as [fu|]; [|discriminate]. cbn in Hpaso.
    destruct (est fu); try discriminate.
    destruct (condicion_libre (orquestador s)) eqn:Hlibre; [|discriminate].
    injection Hpaso as <-. split; [exact Hsal|]. cbn.
    intros t img Hx. apply (Himg t img).
    destruct (orquestador s); try discriminate Hlibre; try discriminate Hx; exact Hx.
Qed.

Lemma cuadro_ejecutar self0 cr ci traza : forall s s',
  bien_formado self0 -> invariante self0 cr ci s ->
  cuadro_completo self0 (Complejo cr ci) s ->
  ejecutar traza s = Some s' ->
  cuadro_completo self0 (Complejo cr ci) s'.
Proof.
  induction traza as [|[dt e] traza IH]; intros s s' Hbf Hinv Hc Hej; cbn in Hej.
  - injection Hej as <-. exact Hc.
  - destruct (paso s dt e) as [s1|] eqn:Hp; [|discriminate]. cbn in Hej.
    apply (IH s1 s'); [exact Hbf| | |exact Hej].
    + eapply invariante_paso; eassumption.
    + eapply cuadro_paso; eassumption.
Qed.

(** X14: a parallel run on the grid that a sequential run with the same
    constant has just filled never shows an unfinished grid.  In
    [generar_fractal_y_graficar] the grid is the finished one at every
    point of the parallel run, under every schedule, and so is the grid
    that [generar_fractal_paralelo] hands to [graficar_fractal] when it
    returns, even if it returns while fragments are outstanding. *)
Theorem paralelo_tras_secuencial fractal ahora cr ci duracion traza np s r :
  bien_formado fractal ->
  generar_fractal_y_graficar fractal ahora cr ci duracion traza np
  = Some (s, r) ->
  exists t imagen,
    orquestador s = Retornado t imagen
    /\ imagen = salida (generar_fractal_secuencial fractal cr ci)
    /\ salida (objeto s) = salida (generar_fractal_secuencial fractal cr ci)
    /\ forall traza' s',
         ejecutar traza'
           (iniciar_paralelo (generar_fractal_secuencial fractal cr ci) cr ci
              (ahora + duracion)%Q) = Some s' ->
         salida (objeto s') = salida (generar_fractal_secuencial fractal cr ci).
Proof.
  intros Hbf Hg. unfold generar_fractal_y_graficar in Hg.
  destruct (Qle_bool 0 duracion); [|discriminate].
  set (f1 := generar_fractal_secuencial fractal cr ci) in *.
  assert (bien_formado f1) as Hbf1 by (apply bien_formado_secuencial; exact Hbf).
  assert (salida f1 = matriz_julia f1 (Complejo cr ci)) as Hsal1.
  { unfold f1. rewrite (generar_fractal_secuencial_directo fractal cr ci Hbf).
    apply matriz_julia_igual; reflexivity. }
  assert (forall traza' s',
            ejecutar traza' (iniciar_paralelo f1 cr ci (ahora + duracion)%Q) = Some s' ->
            cuadro_completo f1 (Complejo cr ci) s') as Hall.
  { intros traza' s' Hej.
    apply (cuadro_ejecutar f1 cr ci traza' _ s' Hbf1
             (invariante_inicial f1 cr ci Hbf1 (ahora + duracion)%Q)); [|exact Hej].
    split; [exact Hsal1|]. cbn. intros t img Hx. discriminate Hx. }
  destruct (ejecutar traza (iniciar_paralelo f1 cr ci (ahora + duracion)%Q))
    as [s1|] eqn:Hej; [|discriminate]. cbn in Hg.
  destruct (orquestador s1) as [| | | |t img] eqn:Ho; try discriminate.
  injection Hg as <- <-.
  destruct (Hall traza s1 Hej) as [Hs Hi].
  exists t, img. split; [exact Ho|]. rewrite Hsal1.
  split; [apply (Hi t img Ho)|]. split; [exact Hs|].
  intros traza' s' Hej'. apply (Hall traza' s' Hej').
Qed.

End PropiedadesLlamador.

Lemma paralelo_tras_secuencial_testigo :
  exists s r t imagen,
    generar_fractal_y_graficar (ar := aritmetica_ref) objeto_4x4 0
      (-0.75) 0.125 3 traza_prematura 4 = Some (s, r)
    /\ todos_fusionados s = false
    /\ orquestador s = Retornado t imagen
    /\ imagen = [[0; 1; 1; 1]; [0; 1; 3; 4]; [1; 10; 10; 10]; [0; 2; 3; 3]].
Proof.
  destruct (generar_fractal_y_graficar (ar := aritmetica_ref) objeto_4x4 0
              (-0.75) 0.125 3 traza_prematura 4) as [[s r]|] eqn:Hg;
    [|vm_compute in Hg; discriminate Hg].
  destruct (paralelo_tras_secuencial (ar := aritmetica_ref) objeto_4x4 0
              (-0.75) 0.125 3 traza_prematura 4 s r
              (bien_formado_nuevo 4 4 10 ltac:(lia) ltac:(lia)) Hg)
    as (t & imagen & Ho & Himg & _).
  exists s, r, t, imagen. split; [reflexivity|]. split.
  - vm_compute in Hg. injection Hg as <- _. reflexivity.
  - split; [exact Ho|]. rewrite Himg. vm_compute. reflexivity.
Defined.

(** ** The metrics of the caller *)

Section PropiedadesMetricas.
Context {ar : AritmeticaCompleja}.

Lemma invariante_reloj_paso s dt e s' :
  invariante_reloj s -> paso s dt e = Some s' -> invariante_reloj s'.
Proof.
  intros [Hrel Hret] Hpaso.
  unfold paso in Hpaso. destruct (Qle_bool 0 dt) eqn:Hdt; cbn [negb] in Hpaso;
    [|discriminate].
  apply Qle_bool_iff in Hdt.
  assert (start_time s <= reloj s + dt)%Q as Hrel' by lra.
  destruct e.
  - unfold someter in Hpaso.
    destruct (orquestador s) as [[|fr resto]| | | |]; try discriminate.
    injection Hpaso as <-. split; cbn; [exact Hrel'|]. intros t img Hx. discriminate Hx.
  - unfold entrar in Hpaso.
    destruct (orquestador s) as [[|fr resto]| | | |]; try discriminate.
    injection Hpaso as <-. split; cbn; [exact Hrel'|]. intros t img Hx. discriminate Hx.
  - unfold registrar in Hpaso.
    destruct (orquestador s) as [l|k| | |]; try discriminate.
    destruct (futures s !! k) as [fu|]; [|discriminate]. cbn in Hpaso.
    destruct (est fu); try discriminate; injection Hpaso as <-;
      (split; cbn; [exact Hrel'|]; intros t img Hx; discriminate Hx).
  - unfold esperar in Hpaso.
    destruct (orquestador s) as [l|k| | |]; try discriminate.
    destruct (futures s !! k); [discriminate|].
    injection Hpaso as <-. split; cbn; [exact Hrel'|]. intros t img Hx. discriminate Hx.
  - unfold despertar in Hpaso.
    destruct (orquestador s); try discriminate.
    injection Hpaso as <-. split; cbn; [exact Hrel'|].
    intros t img [= <- _]. lra.
  - unfold terminar in Hpaso.
    destruct (futures s !! i) as [fu|]; [|discriminate]. cbn in Hpaso.
    destruct (est fu); try discriminate.
    destruct (generar_fractal (objeto s) (fragmento fu)); [|discriminate].
    injection Hpaso as <-. split; cbn; [exact Hrel'|exact Hret].
  - unfold fusionar_en_hilo in Hpaso.
    destruct (futures s !! i) as [fu|]; [|discriminate]. cbn in Hpaso.
    destruct (est fu); try discriminate.
    destruct (con_callback fu); [|discriminate].
    injection Hpaso as <-. split; cbn; [exact Hrel'|exact Hret].
  - unfold notificar_en_hilo in Hpaso.
    destruct (futures s !! i) as [fu|]; [|discriminate]. cbn in Hpaso.
    destruct (est fu); try discriminate.
    destruct (condicion_libre (orquestador s)) eqn:Hlibre; [|discriminate].
    injection Hpaso as <-. split; cbn; [exact Hrel'|].
    intros t img Hx. apply (Hret t img).
    destruct (orquestador s); try discriminate Hlibre; try discriminate Hx; exact Hx.
Qed.

Lemma invariante_reloj_ejecutar traza : forall s s',
  invariante_reloj s -> ejecutar traza s = Some s' -> invariante_reloj s'.
Proof.
  induction traza as [|[dt e] traza IH]; intros s s' Hinv Hej; cbn in Hej.
  - injection Hej as <-. exact Hinv.
  - destruct (paso s dt e) as [s1|] eqn:Hp; [|discriminate]. cbn in Hej.
    apply (IH s1 s'); [|exact Hej]. eapply invariante_reloj_paso; eassumption.
Qed.

Lemma invariante_reloj_inicial self cr ci t0 :
  invariante_reloj (iniciar_paralelo self cr ci t0).
Proof. split; cbn; [lra|]. intros t img Hx. discriminate Hx. Qed.

(** X15: the metrics that [generar_fractal_y_graficar] computes after its
    two runs.  The accumulator always exists when it is read, so no
    AttributeError arises; the two task counts are the same number, the
    height; the elapsed times and the communication time are not
    negative.  The seven metrics are produced exactly when the height, the
    two elapsed times, the processor count and the communication time are
    all nonzero, and ZeroDivisionError is raised otherwise: in particular
    always on an object of height 0, whose two runs succeed. *)
Theorem metricas_de_la_corrida fractal ahora cr ci duracion traza np s r a0 :
  bien_formado fractal ->
  tiempo_comunicacion_total fractal = Some a0 -> (0 <= a0)%Q ->
  generar_fractal_y_graficar fractal ahora cr ci duracion traza np
  = Some (s, r) ->
  exists t_par imagen tc,
    orquestador s = Retornado t_par imagen
    /\ tiempo_comunicacion_total (objeto s) = Some tc
    /\ (tc == a0 + suma (comunicaciones s))%Q
    /\ (0 <= duracion)%Q /\ (0 <= t_par)%Q /\ (0 <= tc)%Q
    /\ let n := inject_Z (alto fractal) in
       (Forall (fun d => ~ (d == 0)%Q) [n; duracion; t_par; inject_Z np; tc] ->
          r = inr {| latencia_por_tarea_secuencial := (duracion / n)%Q;
                     latencia_por_tarea_paralelo := (t_par / n)%Q;
                     throughput_secuencial := (n / duracion)%Q;
                     throughput_paralelo := (n / t_par)%Q;
                     speedup := (duracion / t_par)%Q;
                     eficiencia := (duracion / t_par / inject_Z np)%Q;
                     granularidad := (t_par / tc)%Q |})
       /\ (Exists (fun d => (d == 0)%Q) [n; duracion; t_par; inject_Z np; tc] ->
          r = inl ZeroDivisionError).
Proof.
  intros Hbf Ha0 Hpos Hg. unfold generar_fractal_y_graficar in Hg.
  destruct (Qle_bool 0 duracion) eqn:Hdur; [|discriminate].
  apply Qle_bool_iff in Hdur.
  set (f1 := generar_fractal_secuencial fractal cr ci) in *.
  assert (bien_formado f1) as Hbf1 by (apply bien_formado_secuencial; exact Hbf).
  assert (tiempo_comunicacion_total f1 = Some a0) as Ha1 by exact Ha0.
  assert (alto f1 = alto fractal) as Hh1 by reflexivity.
  destruct (ejecutar traza (iniciar_paralelo f1 cr ci (ahora + duracion)%Q))
    as [s1|] eqn:Hej; [|discriminate]. cbn in Hg.
  destruct (orquestador s1) as [| | | |t img] eqn:Ho; try discriminate.
  injection Hg as <- <-.
  pose proof (invariante_ejecutar f1 cr ci Hbf1 traza _ s1
                (invariante_inicial f1 cr ci Hbf1 (ahora + duracion)%Q) Hej)
    as [_ Hh _ _ _ [Hlen _] _ _].
  pose proof (invariante_tiempo_ejecutar a0 traza _ s1
                (invariante_tiempo_inicial f1 cr ci (ahora + duracion)%Q a0 Ha1) Hej)
    as [(tc & Htc & Hsum) _ Hcom].
  pose proof (invariante_reloj_ejecutar traza _ s1
                (invariante_reloj_inicial f1 cr ci (ahora + duracion)%Q) Hej)
    as [_ Hret].
  pose proof (suma_no_negativa _ Hcom) as Hsuma.
  exists t, img, tc. split; [exact Ho|]. split; [exact Htc|].
  split; [exact Hsum|]. split; [exact Hdur|]. split; [exact (Hret t img Ho)|].
  split; [lra|].
  intros n. unfold calcular_metricas. rewrite Htc, Hh, Hlen, Hh1.
  destruct Hbf as (Hal & _).
  rewrite (Z2Nat.id _ Hal). fold n. split.
  - rewrite !Forall_cons. intros (H1 & H2 & H3 & H4 & H5 & _).
    do 7 (rewrite dividir_no_cero by assumption; cbn [ligar]). reflexivity.
  - rewrite !Exists_cons, Exists_nil.
    destruct (Qeq_dec n 0) as [E1|E1]; [rewrite (dividir_cero _ n E1); reflexivity|].
    rewrite !(dividir_no_cero _ n E1). cbn [ligar].
    destruct (Qeq_dec duracion 0) as [E2|E2];
      [rewrite (dividir_cero _ duracion E2); reflexivity|].
    rewrite (dividir_no_cero _ duracion E2). cbn [ligar].
    destruct (Qeq_dec t 0) as [E3|E3]; [rewrite (dividir_cero _ t E3); reflexivity|].
    rewrite !(dividir_no_cero _ t E3). cbn [ligar].
    destruct (Qeq_dec (inject_Z np) 0) as [E4|E4];
      [rewrite (dividir_cero _ _ E4); reflexivity|].
    rewrite (dividir_no_cero _ _ E4). cbn [ligar].
    destruct (Qeq_dec tc 0) as [E5|E5]; [rewrite (dividir_cero _ tc E5); reflexivity|].
    intros [H|[H|[H|[H|[H|[]]]]]]; contradiction.
Qed.

End PropiedadesMetricas.

Lemma metricas_de_la_corrida_testigo :
  exists s r t_par imagen tc,
    generar_fractal_y_graficar (ar := aritmetica_ref) objeto_4x4 0
      (-0.75) 0.125 3 traza_completa 4 = Some (s, r)
    /\ orquestador s = Retornado t_par imagen
    /\ tiempo_comunicacion_total (objeto s) = Some tc
    /\ (tc == 0 + suma (comunicaciones s))%Q
    /\ (0 <= t_par)%Q /\ (0 <= tc)%Q.
Proof.
  destruct (generar_fractal_y_graficar (ar := aritmetica_ref) objeto_4x4 0
              (-0.75) 0.125 3 traza_completa 4) as [[s r]|] eqn:Hg;
    [|vm_compute in Hg; discriminate Hg].
  destruct (metricas_de_la_corrida (ar := aritmetica_ref) objeto_4x4 0
              (-0.75) 0.125 3 traza_completa 4 s r 0
              (bien_formado_nuevo 4 4 10 ltac:(lia) ltac:(lia)) eq_refl
              ltac:(lra) Hg)
    as (t & imagen & tc & Ho & Htc & Hsum & _ & Ht & Hpos & _).
  exists s, r, t, imagen, tc. split; [reflexivity|].
  split; [exact Ho|]. split; [exact Htc|]. split; [exact Hsum|].
  split; [exact Ht|exact Hpos].
Defined.

(** ** The grid over the life of an object *)

Section PropiedadesVida.
Context {ar : AritmeticaCompleja}.






End PropiedadesVida.

